(** * ssh-orchestrator: the interactive session layer and its output normaliser

    A shallow embedding of [helpers/text_processor.py] and of the class
    [SSHCommandExecutor] of [helpers/ssh_manager.py].

    Python strings are sequences of code points; a code point is an [N].
    The transport (paramiko), the clock ([time]), [select] and the file
    system are the environment: their answers are scripted in a [world]
    value that is threaded through every method, and every action the
    code performs on them is appended to the world's event log. *)

From Stdlib Require Import List NArith ZArith Bool Arith Lia.
From Stdlib Require String Ascii.
Import ListNotations.
Import String.StringSyntax.
Delimit Scope string_scope with string.

Set Implicit Arguments.

(* ================================================================== *)
(** * Python strings *)
(* ================================================================== *)

Module Py.

Definition char := N.
Definition str := list char.

(** A literal of the source, written as a Rocq string. *)
Definition lit (x : String.string) : str :=
  map Ascii.N_of_ascii (String.list_ascii_of_string x).
Arguments lit x%_string_scope.

Definition BS  : char := 8%N.    (* "\x08" *)
Definition TAB : char := 9%N.
Definition LF  : char := 10%N.   (* "\n" *)
Definition CR  : char := 13%N.   (* "\r" *)
Definition ESC : char := 27%N.   (* "\x1B" *)
Definition SP  : char := 32%N.

Definition is_nil {A} (l : list A) : bool :=
  match l with [] => true | _ :: _ => false end.

(** Truthiness of an [Optional[str]]: [None] and the empty string are falsy. *)
Definition truthy (o : option str) : bool :=
  match o with
  | None => false
  | Some s => negb (is_nil s)
  end.

(** [s.startswith(p)] *)
Fixpoint startswith (p s : str) : bool :=
  match p, s with
  | [], _ => true
  | _ :: _, [] => false
  | a :: p', b :: s' => (a =? b)%N && startswith p' s'
  end.

(** [sub in s] *)
Fixpoint contains (sub s : str) : bool :=
  startswith sub s ||
  match s with
  | [] => false
  | _ :: t => contains sub t
  end.

(** [s.count(sub)]: the occurrences found by a left to right scan, which do
    not overlap.  [skip] is the number of characters of the occurrence just
    found that are still to be passed over. *)
Fixpoint count_from (sub : str) (skip : nat) (s : str) : nat :=
  match s with
  | [] => match sub with [] => 1 | _ :: _ => 0 end
  | _ :: t =>
      match skip with
      | S k => count_from sub k t
      | O => if startswith sub s
             then S (count_from sub (length sub - 1) t)
             else count_from sub 0 t
      end
  end.

Definition count (sub s : str) : nat := count_from sub 0 s.

(** [s.replace(old, new)]: the occurrences of [old] found by a left to right
    scan, which do not overlap, are replaced. *)
Fixpoint replace_from (old new : str) (skip : nat) (s : str) : str :=
  match s with
  | [] => match old with [] => new | _ :: _ => [] end
  | c :: t =>
      match skip with
      | S k => replace_from old new k t
      | O => if startswith old s
             then match old with
                  | [] => new ++ c :: replace_from old new 0 t
                  | _ :: o => new ++ replace_from old new (length o) t
                  end
             else c :: replace_from old new 0 t
      end
  end.

Definition replace (old new s : str) : str := replace_from old new 0 s.

(** The line boundaries of [str.splitlines]. *)
Definition is_linebreak (c : char) : bool :=
  ((c =? 10) || (c =? 13) || (c =? 11) || (c =? 12) ||
   (c =? 28) || (c =? 29) || (c =? 30) || (c =? 133) ||
   (c =? 8232) || (c =? 8233))%N.

(** [str.isspace] on one character. *)
Definition is_space (c : char) : bool :=
  (((9 <=? c) && (c <=? 13)) || ((28 <=? c) && (c <=? 32)) ||
   (c =? 133) || (c =? 160) || (c =? 5760) ||
   ((8192 <=? c) && (c <=? 8202)) ||
   (c =? 8232) || (c =? 8233) || (c =? 8239) || (c =? 8287) ||
   (c =? 12288))%N.

(** [s.splitlines()]: [cur] is the line being read.  "\r\n" is one
    boundary; a last line is produced only when it is not empty. *)
Fixpoint splitlines_from (cur : str) (s : str) : list str :=
  match s with
  | [] => match cur with [] => [] | _ :: _ => [cur] end
  | c :: t =>
      if is_linebreak c then
        cur :: match t with
               | d :: t' => if ((c =? CR) && (d =? LF))%N
                            then splitlines_from [] t'
                            else splitlines_from [] t
               | [] => splitlines_from [] t
               end
      else splitlines_from (cur ++ [c]) t
  end.

Definition splitlines (s : str) : list str := splitlines_from [] s.

(** [sep.join(parts)] *)
Fixpoint join (sep : str) (parts : list str) : str :=
  match parts with
  | [] => []
  | [p] => p
  | p :: rest => p ++ sep ++ join sep rest
  end.

(** [s.lstrip()] *)
Fixpoint lstrip (s : str) : str :=
  match s with
  | [] => []
  | c :: t => if is_space c then lstrip t else s
  end.

(** [s.rstrip()] and [s.strip()] *)
Definition rstrip (s : str) : str := rev (lstrip (rev s)).
Definition strip (s : str) : str := rstrip (lstrip s).

End Py.

(* ================================================================== *)
(** * Regular expressions: the part of Python's [re] the program uses *)
(* ================================================================== *)

Module Re.
Import Py.

(** Compiled patterns.  [Plus r] is [Cat r (Star r)] and [r?] is
    [Alt r Empty]. *)
Inductive regex : Type :=
| Empty
| Lit (c : char)
| Dot                                   (* any character but "\n" *)
| Class (ranges : list (char * char))   (* [a-b...] *)
| Bol                                   (* ^ *)
| Eol                                   (* $ *)
| Cat (r1 r2 : regex)
| Alt (r1 r2 : regex)
| Star (r : regex).                     (* greedy *)

Definition in_ranges (c : char) (rs : list (char * char)) : bool :=
  existsb (fun lh => (fst lh <=? c) && (c <=? snd lh))%N rs.

(** Greedy iteration: one more round of [step] first, then stop.  A round
    that consumes nothing is not repeated. *)
Fixpoint star_iter (step : str -> list str) (fuel : nat) (s : str) : list str :=
  match fuel with
  | O => [s]
  | S f =>
      flat_map (fun s' => if length s' <? length s then star_iter step f s' else [])
               (step s) ++ [s]
  end.

(** The backtracking matcher.  [rmatch n r s] lists, in the order in which
    the engine tries them, the texts that can remain after [r] has matched
    a prefix of [s]; [n] is the length of the whole subject, and [s] one of
    its suffixes, so that [s] is at the start exactly when [length s = n]. *)
Fixpoint rmatch (n : nat) (r : regex) (s : str) : list str :=
  match r with
  | Empty => [s]
  | Lit c => match s with
             | x :: t => if (x =? c)%N then [t] else []
             | [] => []
             end
  | Dot => match s with
           | x :: t => if (x =? LF)%N then [] else [t]
           | [] => []
           end
  | Class rs => match s with
                | x :: t => if in_ranges x rs then [t] else []
                | [] => []
                end
  | Bol => if length s =? n then [s] else []
  | Eol => match s with
           | [] => [s]
           | [x] => if (x =? LF)%N then [s] else []
           | _ => []
           end
  | Cat r1 r2 => flat_map (rmatch n r2) (rmatch n r1 s)
  | Alt r1 r2 => rmatch n r1 s ++ rmatch n r2 s
  | Star r' => star_iter (rmatch n r') (length s) s
  end.

(** Does [r] match at the head of [s]? *)
Definition match_here (n : nat) (r : regex) (s : str) : bool :=
  negb (is_nil (rmatch n r s)).

(** [pattern.search(text)]: is there a match starting anywhere, the end of
    the text included? *)
Fixpoint search_from (n : nat) (r : regex) (s : str) : bool :=
  match_here n r s ||
  match s with
  | [] => false
  | _ :: t => search_from n r t
  end.

Definition search (r : regex) (text : str) : bool :=
  search_from (length text) r text.

(** [pattern.sub(repl, text)] for a constant [repl].  At each place the
    first match in the engine's order is taken; after an empty match the
    next one at the same place has to be non-empty ([adv]). *)
Fixpoint sub_loop (fuel : nat) (n : nat) (r : regex) (repl : str)
                  (adv : bool) (s : str) : str :=
  match fuel with
  | O => s
  | S f =>
      match find (fun s' => negb adv || (length s' <? length s)) (rmatch n r s) with
      | Some s' => repl ++ sub_loop f n r repl (length s' =? length s) s'
      | None => match s with
                | [] => []
                | c :: t => c :: sub_loop f n r repl false t
                end
      end
  end.

Definition sub (r : regex) (repl text : str) : str :=
  sub_loop (2 * length text + 2) (length text) r repl false text.

(** ** Parsing pattern strings

    The fragment read here: literal characters, [.], [^], [$], groups
    [( )], alternation [|], one of the repeats [*], [+], [?] after an item,
    a backslash before a punctuation character, and the escapes [\n], [\t],
    [\r].  [None] stands for [re.error] (nothing to repeat, a repeat after a
    repeat, an unbalanced parenthesis, a trailing backslash) and for every
    pattern that uses syntax outside this fragment. *)

Definition is_alnum (c : char) : bool :=
  (((48 <=? c) && (c <=? 57)) || ((65 <=? c) && (c <=? 90)) ||
   ((97 <=? c) && (c <=? 122)))%N.

Definition is_repeat (c : char) : bool :=
  ((c =? 42) || (c =? 43) || (c =? 63))%N.      (* * + ? *)

Definition escape (c : char) : option regex :=
  if (c =? 110)%N then Some (Lit LF)            (* \n *)
  else if (c =? 116)%N then Some (Lit TAB)      (* \t *)
  else if (c =? 114)%N then Some (Lit CR)       (* \r *)
  else if is_alnum c then None
  else Some (Lit c).

(** An item followed by at most one repeat. *)
Definition repeat (r : regex) (rest : str) : option (regex * str) :=
  match rest with
  | q :: rest' =>
      if is_repeat q then
        match rest' with
        | q' :: _ => if is_repeat q' then None else
            Some (if (q =? 42)%N then Star r
                  else if (q =? 43)%N then Cat r (Star r)
                  else Alt r Empty, rest')
        | [] =>
            Some (if (q =? 42)%N then Star r
                  else if (q =? 43)%N then Cat r (Star r)
                  else Alt r Empty, rest')
        end
      else Some (r, rest)
  | [] => Some (r, rest)
  end.

(** An anchor cannot be repeated. *)
Definition no_repeat (r : regex) (rest : str) : option (regex * str) :=
  match rest with
  | q :: _ => if is_repeat q then None else Some (r, rest)
  | [] => Some (r, rest)
  end.

Fixpoint parse_alt (fuel : nat) (s : str) {struct fuel} : option (regex * str) :=
  match fuel with
  | O => None
  | S f =>
      match parse_seq f s with
      | Some (r1, c :: rest) =>
          if (c =? 124)%N then                       (* | *)
            match parse_alt f rest with
            | Some (r2, rest') => Some (Alt r1 r2, rest')
            | None => None
            end
          else Some (r1, c :: rest)
      | other => other
      end
  end
with parse_seq (fuel : nat) (s : str) {struct fuel} : option (regex * str) :=
  match fuel with
  | O => None
  | S f =>
      match s with
      | [] => Some (Empty, [])
      | c :: t =>
          if ((c =? 124) || (c =? 41))%N then Some (Empty, s)   (* | ) *)
          else
            let item :=
              if (c =? 40)%N then                               (* ( *)
                match parse_alt f t with
                | Some (r, d :: rest) =>
                    if (d =? 41)%N then repeat r rest else None
                | _ => None
                end
              else if (c =? 46)%N then repeat Dot t             (* . *)
              else if (c =? 94)%N then no_repeat Bol t          (* ^ *)
              else if (c =? 36)%N then no_repeat Eol t          (* $ *)
              else if (c =? 92)%N then                          (* \ *)
                match t with
                | e :: rest =>
                    match escape e with
                    | Some r => repeat r rest
                    | None => None
                    end
                | [] => None
                end
              else if is_repeat c then None
              else if ((c =? 91) || (c =? 123))%N then None     (* [ { *)
              else repeat (Lit c) t
            in
            match item with
            | Some (r, rest) =>
                match parse_seq f rest with
                | Some (r', rest') => Some (Cat r r', rest')
                | None => None
                end
            | None => None
            end
      end
  end.

(** [re.compile(pattern)] *)
Definition compile (pattern : str) : option regex :=
  match parse_alt (2 * length pattern + 2) pattern with
  | Some (r, []) => Some r
  | _ => None
  end.

End Re.

(* ================================================================== *)
(** * Exceptions and results *)
(* ================================================================== *)

(** What one call of [client.connect] can do. *)
Inductive conn_result : Type :=
| Connected
| AuthenticationException (id : nat)   (* paramiko.AuthenticationException *)
| SSHException (id : nat)              (* paramiko.SSHException *)
| SocketError (id : nat).              (* socket.error *)

Inductive exn : Type :=
| ValueError
| ConnectionError (cause : conn_result)   (* raise ConnectionError(...) from e *)
| RuntimeError
| TimeoutError
| FileNotFoundError
| OSError
| ReError                                 (* re.error *)
| OverflowError
| AttributeError
| UnicodeDecodeError.

(** The result of a call: a value, an exception, or [Pending] when the
    scripted clock has no reading left, that is, when the call would still
    be running at the end of the scenario. *)
Inductive outcome (A : Type) : Type :=
| Return (a : A)
| Raise (e : exn)
| Pending.

Arguments Return {A} a.
Arguments Raise {A} e.
Arguments Pending {A}.

(** The interface of [re] the program relies on: [re.compile], which can
    fail, and [pattern.search]. *)
Class RegexEngine : Type := {
  pattern : Type;
  re_compile : Py.str -> option pattern;
  pattern_search : pattern -> Py.str -> bool
}.

(** [re.search(p, text)]: [None] when [p] does not compile. *)
Definition re_search `{RegexEngine} (p text : Py.str) : option bool :=
  match re_compile p with
  | Some c => Some (pattern_search c text)
  | None => None
  end.

(** The engine of module [Re]. *)
#[export] Instance py_re : RegexEngine := {|
  pattern := Re.regex;
  re_compile := Re.compile;
  pattern_search := Re.search
|}.

(* ================================================================== *)
(** * helpers/text_processor.py *)
(* ================================================================== *)

Module text_processor.
Import Py.

(** The loop of [clean_text]: [stack.append(char)], or [stack.pop()] on a
    backspace when the stack is not empty. *)
Fixpoint clean_text_loop (stack : str) (text : str) : str :=
  match text with
  | [] => stack
  | c :: rest =>
      if negb (c =? BS)%N then clean_text_loop (stack ++ [c]) rest
      else match stack with
           | _ :: _ => clean_text_loop (removelast stack) rest
           | [] => clean_text_loop stack rest
           end
  end.

Definition clean_text (text : str) : str := clean_text_loop [] text.

(** [r"\x1B\[[0-?]*[ -/]*[@-~]"] *)
Definition ansi_re : Re.regex :=
  Re.Cat (Re.Lit ESC)
 (Re.Cat (Re.Lit 91%N)
 (Re.Cat (Re.Star (Re.Class [(48%N, 63%N)]))
 (Re.Cat (Re.Star (Re.Class [(32%N, 47%N)]))
         (Re.Class [(64%N, 126%N)])))).

Definition strip_ansi (text : str) : str := Re.sub ansi_re [] text.

Definition clean (text : str) : str := clean_text (strip_ansi text).

Section Filtering.
Context `{RegexEngine}.

(** [[re.compile(pattern) for pattern in exclude_patterns]] *)
Fixpoint compile_all (exclude_patterns : list str) : option (list pattern) :=
  match exclude_patterns with
  | [] => Some []
  | p :: ps =>
      match re_compile p with
      | Some c => match compile_all ps with
                  | Some cs => Some (c :: cs)
                  | None => None
                  end
      | None => None
      end
  end.

Definition keep_line (compiled_patterns : list pattern) (line : str) : bool :=
  negb (existsb (fun p => pattern_search p line) compiled_patterns).

Definition filter_lines (text : str) (exclude_patterns : list str) : outcome str :=
  match compile_all exclude_patterns with
  | Some compiled_patterns =>
      Return (join [LF] (filter (keep_line compiled_patterns) (splitlines text)))
  | None => Raise ReError
  end.

End Filtering.

Definition dedent (text : str) : str := join [LF] (map lstrip (splitlines text)).

End text_processor.

(* ================================================================== *)
(** * The environment of a session *)
(* ================================================================== *)

Module Env.
Import Py.

(** What the program does to its environment, in order. *)
Inductive event : Type :=
| Connect (with_key : bool)          (* client.connect(..., key_filename= / password=) *)
| InvokeShell                        (* client.invoke_shell() *)
| Sleep (ms : Z)                     (* time.sleep *)
| Send (data : str)                  (* channel.send *)
| Recv (data : str)                  (* channel.recv(4096).decode(...) *)
| Select                             (* select.select([channel], [], [], 1) *)
| ChannelClose                       (* channel.close() *)
| ClientClose                        (* client.close() *)
| Append (filename content : str).   (* open(filename, "a").write(content) *)

(** A path of the file system, as [os.path.isfile] and [open] see it. *)
Inductive file : Type :=
| NoFile
| Unreadable                         (* [open] raises [OSError] *)
| Undecodable                        (* [readlines()] raises [UnicodeDecodeError] *)
| Lines (lines : list str).          (* what [readlines()] returns *)

(** The scripted environment.  Times are in milliseconds. *)
Record world : Type := mkWorld {
  connects : nat -> conn_result;     (* result of the i-th client.connect, from 0 *)
  attempts : nat;                    (* calls of client.connect so far *)
  shell_fails : bool;                (* invoke_shell raises SSHException *)
  polls : list (option str);         (* successive polls of the channel: the chunk
                                        that is ready, or [None]; silent afterwards *)
  selects : list bool;               (* successive answers of select; empty afterwards *)
  clock : list Z;                    (* successive readings of time.time() *)
  transport_active : bool;           (* get_transport() is there and is_active() *)
  channel_closed : bool;             (* channel.closed *)
  data_dir : option str;             (* config.general.get("data_dir") *)
  write_fails : bool;                (* makedirs or open raises *)
  files : str -> file;
  log : list event
}.

Definition emit (e : event) (w : world) : world :=
  mkWorld (connects w) (attempts w) (shell_fails w) (polls w) (selects w) (clock w)
          (transport_active w) (channel_closed w) (data_dir w) (write_fails w)
          (files w) (log w ++ [e]).

Definition set_polls (p : list (option str)) (w : world) : world :=
  mkWorld (connects w) (attempts w) (shell_fails w) p (selects w) (clock w)
          (transport_active w) (channel_closed w) (data_dir w) (write_fails w)
          (files w) (log w).

Definition set_selects (s : list bool) (w : world) : world :=
  mkWorld (connects w) (attempts w) (shell_fails w) (polls w) s (clock w)
          (transport_active w) (channel_closed w) (data_dir w) (write_fails w)
          (files w) (log w).

Definition set_clock (c : list Z) (w : world) : world :=
  mkWorld (connects w) (attempts w) (shell_fails w) (polls w) (selects w) c
          (transport_active w) (channel_closed w) (data_dir w) (write_fails w)
          (files w) (log w).

Definition set_attempts (n : nat) (w : world) : world :=
  mkWorld (connects w) n (shell_fails w) (polls w) (selects w) (clock w)
          (transport_active w) (channel_closed w) (data_dir w) (write_fails w)
          (files w) (log w).

Definition set_transport_active (b : bool) (w : world) : world :=
  mkWorld (connects w) (attempts w) (shell_fails w) (polls w) (selects w) (clock w)
          b (channel_closed w) (data_dir w) (write_fails w) (files w) (log w).

Definition set_channel_closed (b : bool) (w : world) : world :=
  mkWorld (connects w) (attempts w) (shell_fails w) (polls w) (selects w) (clock w)
          (transport_active w) b (data_dir w) (write_fails w) (files w) (log w).

(** [time.time()]: the next reading, if the scenario has one. *)
Definition time_time (w : world) : option (Z * world) :=
  match clock w with
  | now :: rest => Some (now, set_clock rest w)
  | [] => None
  end.

Definition time_sleep (ms : Z) (w : world) : world := emit (Sleep ms) w.

(** The longest whole number of seconds whose count of nanoseconds fits
    the signed 64 bits in which [time.sleep] keeps a length of time. *)
Definition sleep_max : Z := 9223372036.

(** [time.sleep(secs)] for an [int]: a length whose nanoseconds do not fit
    raises [OverflowError], a negative length raises [ValueError]. *)
Definition sleep_seconds (secs : Z) (w : world) : outcome unit * world :=
  if ((secs <? - sleep_max) || (sleep_max <? secs))%Z then (Raise OverflowError, w)
  else if (secs <? 0)%Z then (Raise ValueError, w)
  else (Return tt, time_sleep (secs * 1000) w).

(** [client.connect(...)] *)
Definition client_connect (with_key : bool) (w : world) : conn_result * world :=
  let r := connects w (attempts w) in
  let w1 := emit (Connect with_key) (set_attempts (S (attempts w)) w) in
  match r with
  | Connected => (r, set_transport_active true w1)
  | _ => (r, w1)
  end.

(** [channel.recv_ready()]: a poll that finds nothing is used up. *)
Definition recv_ready (w : world) : bool * world :=
  match polls w with
  | Some _ :: _ => (true, w)
  | None :: rest => (false, set_polls rest w)
  | [] => (false, w)
  end.

(** [channel.recv(4096).decode("utf-8", errors="ignore")], called when
    [recv_ready] has answered [True]. *)
Definition recv (w : world) : str * world :=
  match polls w with
  | Some chunk :: rest => (chunk, emit (Recv chunk) (set_polls rest w))
  | _ => ([], emit (Recv []) w)
  end.

Definition send (data : str) (w : world) : world := emit (Send data) w.

(** [select.select([channel], [], [], 1)]: is the channel readable? *)
Definition select (w : world) : bool * world :=
  match selects w with
  | r :: rest => (r, emit Select (set_selects rest w))
  | [] => (false, emit Select w)
  end.

Definition channel_close (w : world) : world :=
  emit ChannelClose (set_channel_closed true w).

Definition client_close (w : world) : world :=
  emit ClientClose (set_transport_active false w).

(** [os.path.join(a, b)] for a relative [b]. *)
Definition path_join (a b : str) : str :=
  match a with
  | [] => b
  | _ :: _ => if (last a 0 =? 47)%N then a ++ b else a ++ [47%N] ++ b
  end.

(** The events of the log that are of interest to the properties. *)
Definition sent (l : list event) : list str :=
  flat_map (fun e => match e with Send d => [d] | _ => [] end) l.

Definition received (l : list event) : list str :=
  flat_map (fun e => match e with Recv d => [d] | _ => [] end) l.

Definition slept (l : list event) : list Z :=
  flat_map (fun e => match e with Sleep d => [d] | _ => [] end) l.


Definition is_close (e : event) : bool :=
  match e with ChannelClose | ClientClose => true | _ => false end.

End Env.

(* ================================================================== *)
(** * helpers/ssh_manager.py *)
(* ================================================================== *)

Module ssh_manager.
Import Py Env text_processor.

(** The fields of an [SSHCommandExecutor].  [client] and [channel] say
    whether the attribute holds an object or [None]; the state of these
    objects is in the world. *)
Record SSHCommandExecutor : Type := mkExecutor {
  host : str;
  port : Z;
  username : str;
  password : option str;
  key_filename : option str;
  ciphers : list str;
  hostname : option str;
  commands_file : option str;
  client : bool;
  channel : bool
}.

Definition set_client (b : bool) (self : SSHCommandExecutor) : SSHCommandExecutor :=
  mkExecutor (host self) (port self) (username self) (password self)
             (key_filename self) (ciphers self) (hostname self)
             (commands_file self) b (channel self).

Definition set_channel (b : bool) (self : SSHCommandExecutor) : SSHCommandExecutor :=
  mkExecutor (host self) (port self) (username self) (password self)
             (key_filename self) (ciphers self) (hostname self)
             (commands_file self) (client self) b.

Definition default_ciphers : list str :=
  [lit "aes128-ctr"; lit "aes192-ctr"; lit "aes256-ctr"].

(** [SSHCommandExecutor.__init__] *)
Definition __init__ (host : str) (port : Z) (username : str)
    (password key_filename : option str) (ciphers : list str)
    (hostname commands_file : option str) : outcome SSHCommandExecutor :=
  let self :=
    mkExecutor host port username password key_filename
               (match ciphers with [] => default_ciphers | _ :: _ => ciphers end)
               hostname commands_file false false in
  if negb (truthy password) && negb (truthy key_filename)
  then Raise ValueError
  else Return self.

(** The body of [for attempt in range(1, retries + 1)] in [connect].  What
    [time.sleep(delay)] raises inside the [except] clause leaves [connect]. *)
Fixpoint connect_loop (self : SSHCommandExecutor) (retries delay : Z)
    (range : list Z) (w : world) : outcome unit * world :=
  match range with
  | [] => (Return tt, w)
  | attempt :: rest =>
      let (r, w1) := client_connect (truthy (key_filename self)) w in
      match r with
      | Connected => (Return tt, w1)
      | AuthenticationException _ | SSHException _ =>
          if (attempt <? retries)%Z
          then match sleep_seconds delay w1 with
               | (Return _, w2) => connect_loop self retries delay rest w2
               | (Raise e, w2) => (Raise e, w2)
               | (Pending, w2) => (Pending, w2)
               end
          else (Raise (ConnectionError r), w1)
      | SocketError _ => (Raise (ConnectionError r), w1)
      end
  end.

(** [range(1, retries + 1)] *)
Definition range1 (retries : Z) : list Z :=
  map Z.of_nat (seq 1 (Z.to_nat retries)).

(** [connect]: a new [SSHClient] has no transport, so the cipher options
    are not touched before the loop. *)
Definition connect (self : SSHCommandExecutor) (retries delay : Z) (w : world)
    : outcome unit * SSHCommandExecutor * world :=
  let self1 := set_client true self in
  let w0 := set_transport_active false w in
  let (r, w1) := connect_loop self1 retries delay (range1 retries) w0 in
  (r, self1, w1).

(** [interactive_terminal]: without a client, [self.client.get_transport()]
    is an attribute of [None]. *)
Definition interactive_terminal (self : SSHCommandExecutor) (w : world)
    : outcome unit * SSHCommandExecutor * world :=
  if negb (client self) then (Raise AttributeError, self, w)
  else if negb (transport_active w) then (Raise ValueError, self, w)
  else if shell_fails w then (Raise RuntimeError, self, emit InvokeShell w)
  else (Return tt, set_channel true self,
        emit InvokeShell (set_channel_closed false w)).

Section WithRegex.
Context `{RegexEngine}.

(** The [while] loop of [wait_for_prompt].  Every round reads the clock
    once; [fuel] bounds the rounds by the readings that are left. *)
Fixpoint wait_loop (fuel : nat) (prompt : str) (timeout start_time : Z)
    (w : world) : outcome bool * world :=
  match fuel with
  | O => (Pending, w)
  | S f =>
      match time_time w with
      | None => (Pending, w)
      | Some (now, w1) =>
          if (now - start_time <? timeout * 1000)%Z then
            let (ready, w2) := recv_ready w1 in
            if ready then
              let (chunk, w3) := recv w2 in
              match re_search prompt chunk with
              | None => (Raise ReError, w3)
              | Some true => (Return true, w3)
              | Some false => wait_loop f prompt timeout start_time (time_sleep 100 w3)
              end
            else
              let (r, w3) := select w2 in
              if r then wait_loop f prompt timeout start_time w3
              else wait_loop f prompt timeout start_time (time_sleep 100 w3)
          else (Raise TimeoutError, w1)
      end
  end.

(** [wait_for_prompt] *)
Definition wait_for_prompt (self : SSHCommandExecutor) (prompt : str)
    (timeout : Z) (w : world) : outcome bool * world :=
  if negb (channel self) then (Raise ValueError, w)
  else if negb (transport_active w) then (Raise ValueError, w)
  else
    match time_time w with
    | None => (Pending, w)
    | Some (start_time, w1) =>
        wait_loop (length (clock w1) + 1) prompt timeout start_time w1
    end.

Definition more_marker : str := lit "--More--".
Definition end_marker : str := lit "(END)".

(** What one received chunk goes through before it is added to [result];
    the keystrokes for the pager are sent on the way. *)
Definition handle_pagination (chunk : str) (w : world) : str * world :=
  let (chunk1, w1) :=
    if contains more_marker chunk
    then (replace more_marker [] chunk, send [SP] w)
    else (chunk, w) in
  if contains end_marker chunk1
  then (replace end_marker [] chunk1, send (lit "q") w1)
  else (chunk1, w1).

(** The statement [if self.channel.recv_ready(): ...] of the loop of
    [execute_command]. *)
Definition receive_chunk (result : str) (w : world) : str * world :=
  let (ready, w1) := recv_ready w in
  if ready then
    let (chunk, w2) := recv w1 in
    let (chunk1, w3) := handle_pagination chunk w2 in
    (result ++ clean chunk1, w3)
  else (result, w1).

(** The [while True] loop of [execute_command]; it gives back [result]
    as it stands when the loop is left. *)
Fixpoint execute_loop (fuel : nat) (prompt : str) (timeout start_time : Z)
    (result : str) (w : world) : outcome unit * str * world :=
  match fuel with
  | O => (Pending, result, w)
  | S f =>
      let (result1, w2) := receive_chunk result w in
      match re_search prompt result1 with
      | None => (Raise ReError, result1, w2)
      | Some true => (Return tt, result1, w2)
      | Some false =>
          match time_time w2 with
          | None => (Pending, result1, w2)
          | Some (now, w3) =>
              if (now - start_time >? timeout * 1000)%Z
              then (Raise TimeoutError, result1, w3)
              else execute_loop f prompt timeout start_time result1 w3
          end
      end
  end.

(** [log_output_to_file] *)
Definition log_output_to_file (self : SSHCommandExecutor) (output : str)
    (w : world) : outcome unit * world :=
  if negb (truthy (data_dir w)) then (Raise ValueError, w)
  else if write_fails w then (Raise OSError, w)
  else
    let data_dir := match data_dir w with Some d => d | None => [] end in
    let output_dir := path_join data_dir (lit "output") in
    let safe_hostname :=
      if truthy (hostname self)
      then match hostname self with Some h => h | None => [] end
      else lit "unknown_host" in
    let filename :=
      path_join output_dir
        (lit "output_" ++ host self ++ lit "_" ++ safe_hostname ++ lit ".txt") in
    (Return tt, emit (Append filename (output ++ [LF])) w).

(** [execute_command] *)
Definition execute_command (self : SSHCommandExecutor) (cmd prompt : str)
    (to_file : bool) (timeout : Z) (w : world) : outcome str * world :=
  if negb (channel self) then (Raise ValueError, w)
  else
    let w1 := send (cmd ++ [LF]) w in
    match time_time w1 with
    | None => (Pending, w1)
    | Some (start_time, w2) =>
        match execute_loop (length (clock w2) + 1) prompt timeout start_time [] w2 with
        | (Return _, result, w3) =>
            match filter_lines result [cmd; prompt] with
            | Return filtered_output =>
                let dedented_output := dedent filtered_output in
                if to_file then
                  match log_output_to_file self dedented_output w3 with
                  | (Return _, w4) => (Return dedented_output, w4)
                  | (Raise e, w4) => (Raise e, w4)
                  | (Pending, w4) => (Pending, w4)
                  end
                else (Return dedented_output, w3)
            | Raise e => (Raise e, w3)
            | Pending => (Pending, w3)
            end
        | (Raise e, _, w3) => (Raise e, w3)
        | (Pending, _, w3) => (Pending, w3)
        end
    end.

(** [confirm_close] *)
Definition confirm_close (self : SSHCommandExecutor) (w : world) : world :=
  let w1 :=
    if channel self then
      if channel_closed w then w
      else time_sleep 500 (channel_close w)
    else w in
  if client self then
    if negb (transport_active w1) then w1
    else time_sleep 500 (client_close w1)
  else w1.

(** [for cmd in commands] of [execute_commands_from_file]: the first
    command that does not return ends the loop. *)
Fixpoint run_commands (self : SSHCommandExecutor) (commands : list str)
    (prompt : str) (to_file : bool) (timeout : Z) (w : world)
    : outcome unit * world :=
  match commands with
  | [] => (Return tt, w)
  | line :: rest =>
      let cmd := strip line in
      if negb (is_nil cmd) then
        match execute_command self cmd prompt to_file timeout w with
        | (Return _, w1) => run_commands self rest prompt to_file timeout w1
        | (Raise e, w1) => (Raise e, w1)
        | (Pending, w1) => (Pending, w1)
        end
      else run_commands self rest prompt to_file timeout w
  end.

(** [execute_commands_from_file]: the two checks come before the [try];
    the [finally] clause runs [confirm_close] after the [try] block,
    however it ended. *)
Definition execute_commands_from_file (self : SSHCommandExecutor)
    (prompt : str) (to_file : bool) (timeout : Z) (w : world)
    : outcome unit * world :=
  if negb (truthy (commands_file self)) then (Raise ValueError, w)
  else
    let path := match commands_file self with Some p => p | None => [] end in
    match files w path with
    | NoFile => (Raise FileNotFoundError, w)
    | Unreadable => (Raise OSError, confirm_close self w)
    | Undecodable => (Raise UnicodeDecodeError, confirm_close self w)
    | Lines commands =>
        match run_commands self commands prompt to_file timeout w with
        | (Pending, w1) => (Pending, w1)
        | (r, w1) => (r, confirm_close self w1)
        end
    end.

End WithRegex.

(** [__enter__], with the defaults [retries=3] and [delay=3] of [connect],
    and [__exit__]. *)
Definition __enter__ (self : SSHCommandExecutor) (w : world)
    : outcome unit * SSHCommandExecutor * world :=
  match connect self 3 3 w with
  | (Return _, self1, w1) => interactive_terminal self1 w1
  | other => other
  end.

Definition __exit__ (self : SSHCommandExecutor) (w : world) : world :=
  confirm_close self w.

End ssh_manager.

(* ================================================================== *)
(** * Scenarios *)
(* ================================================================== *)

Module Scenarios.
Import Py Env text_processor ssh_manager.

(** A connected session with an open shell channel, as [main] has it after
    [connect] and [interactive_terminal]. *)
Definition device : SSHCommandExecutor :=
  mkExecutor (lit "10.0.0.1") 22 (lit "admin") (Some (lit "secret")) None
             default_ciphers (Some (lit "sw1")) (Some (lit "commands.txt"))
             true true.

(** The same session without a commands file. *)
Definition device_no_script : SSHCommandExecutor :=
  mkExecutor (lit "10.0.0.1") 22 (lit "admin") (Some (lit "secret")) None
             default_ciphers (Some (lit "sw1")) None true true.

(** A session that has not connected yet. *)
Definition fresh : SSHCommandExecutor := set_channel false (set_client false device).

(** An environment in which the transport is up, the channel is open and
    nothing is scripted. *)
Definition idle : world :=
  mkWorld (fun _ => Connected) 0 false [] [] [] true false None false
          (fun _ => NoFile) [].

(** The prompt of [main.py]: [r"\:\~\$"]. *)
Definition shell_prompt : str := lit "\:\~\$".

(** The prompt arrives in two pieces, both well within the 30 seconds. *)
Definition split_prompt : world :=
  set_polls [Some (lit "user@host:~"); Some (lit "$ ")]
    (set_clock [0; 0; 100; 200; 31000]%Z idle).

(** A backspace at the head of the second chunk. *)
Definition split_backspace : world :=
  set_polls [Some (lit "ab"); Some (BS :: lit "c:~$ ")]
    (set_clock [0; 10; 20]%Z idle).

(** An escape sequence cut by the chunk boundary. *)
Definition split_escape : world :=
  set_polls [Some (ESC :: lit "[3"); Some (lit "1mRED:~$ ")]
    (set_clock [0; 10; 20]%Z idle).

(** Two pager markers in one chunk. *)
Definition two_markers : str :=
  lit "line1" ++ [LF] ++ lit "--More--line2" ++ [LF] ++ lit "--More--line3"
  ++ [LF] ++ lit "user@host:~$ ".

Definition paged_twice : world :=
  set_polls [Some two_markers] (set_clock [0; 10]%Z idle).

(** One pager marker cut by the chunk boundary. *)
Definition marker_cut : world :=
  set_polls [Some (lit "line1" ++ [LF] ++ lit "--Mo");
             Some (lit "re--" ++ [LF] ++ lit "user@host:~$ ")]
    (set_clock [0; 10; 20]%Z idle).

(** The echo of a command, its output and the next prompt. *)
Definition echo_home : world :=
  set_polls [Some (lit "echo $HOME" ++ [CR; LF] ++ lit "/home/user" ++ [CR; LF]
                   ++ lit "user@host:~$ ")]
    (set_clock [0; 10]%Z idle).

(** Nothing is ready when the command has been sent. *)
Definition nothing_ready : world := set_clock [0]%Z idle.

(** Data is ready when the command has been sent. *)
Definition data_waiting : world :=
  set_polls [Some (lit "abc")] (set_clock [0; 10; 20; 31000]%Z idle).




(** A commands file of four lines, the second blank; the device answers
    the first command and then falls silent. *)
Definition script : list str :=
  [lit "show version" ++ [LF]; lit "   " ++ [LF]; lit "show clock" ++ [LF];
   lit "show users" ++ [LF]].

Definition silent_after_first : world :=
  mkWorld (fun _ => Connected) 0 false
          [Some (lit "v1.0" ++ [LF] ++ lit "user@host:~$ ")] []
          [0; 10; 20; 31000; 31010]%Z true false None false
          (fun p => if startswith (lit "commands.txt") p then Lines script else NoFile)
          [].

(** ["\x1b\x1b[0m[31m"]: an escape character, a complete sequence, and the
    rest of another one. *)
Definition nested_escape : str := [ESC; ESC] ++ lit "[0m[31m".

(** ["\x1b[31mRED\x1b[0m"] *)
Definition red : str := [ESC] ++ lit "[31mRED" ++ [ESC] ++ lit "[0m".

End Scenarios.

(* ================================================================== *)
(** * Notions used in the statements *)
(* ================================================================== *)

Module Notions.
Import Py Env text_processor ssh_manager.



(** The delays that [time.sleep] accepts. *)
Definition sleep_ok (delay : Z) : Prop := (0 <= delay <= sleep_max)%Z.

(** The events of [k] failed attempts, each followed by the delay. *)
Definition attempt_events (with_key : bool) (delay : Z) (k : nat) : list event :=
  concat (repeat [Connect with_key; Sleep (delay * 1000)] k).


(** Several events, logged in order. *)
Definition emit_all (evs : list event) (w : world) : world :=
  fold_left (fun w e => emit e w) evs w.

(** The events logged between [w] and a later world [w']. *)
Definition since (w w' : world) : list event := skipn (length (log w)) (log w').

(** A received chunk with the pager markers taken out, as
    [execute_command] does it: every [replace] is guarded by [in]. *)
Definition strip_markers (chunk : str) : str :=
  let chunk1 := if contains more_marker chunk
                then replace more_marker [] chunk else chunk in
  if contains end_marker chunk1 then replace end_marker [] chunk1 else chunk1.

(** The keystrokes with which one received chunk is answered. *)
Definition pager_keys (chunk : str) : list event :=
  let chunk1 := if contains more_marker chunk
                then replace more_marker [] chunk else chunk in
  (if contains more_marker chunk then [Send [SP]] else []) ++
  (if contains end_marker chunk1 then [Send (lit "q")] else []).

(** Everything one received chunk adds to the log. *)
Definition chunk_events (chunk : str) : list event := Recv chunk :: pager_keys chunk.

(** What one received chunk adds to [result]. *)
Definition chunk_text (chunk : str) : str := clean (strip_markers chunk).

Definition is_advance_key (data : str) : bool :=
  match data with
  | [c] => (c =? SP)%N
  | _ => false
  end.

(** The number of advance keystrokes sent, and the number of received
    chunks that hold the marker, in a list of events. *)
Definition advance_keys (l : list event) : nat :=
  length (filter is_advance_key (sent l)).

Definition paged_chunks (l : list event) : nat :=
  length (filter (contains more_marker) (received l)).

(** The number of markers in the received chunks. *)
Definition marker_occurrences (l : list event) : nat :=
  list_sum (map (count more_marker) (received l)).

(** An escape sequence read by hand: ESC, "[", parameter bytes 0x30-0x3F,
    intermediate bytes 0x20-0x2F and one final byte 0x40-0x7E.  [csi_rest s]
    is what follows the sequence at the head of [s], if there is one. *)
Fixpoint drop_while (p : char -> bool) (s : str) : str :=
  match s with
  | [] => []
  | c :: t => if p c then drop_while p t else s
  end.

Definition is_parameter (c : char) : bool := ((48 <=? c) && (c <=? 63))%N.
Definition is_intermediate (c : char) : bool := ((32 <=? c) && (c <=? 47))%N.
Definition is_final (c : char) : bool := ((64 <=? c) && (c <=? 126))%N.

Definition csi_rest (s : str) : option str :=
  match s with
  | e :: b :: t =>
      if ((e =? ESC) && (b =? 91))%N then
        match drop_while is_intermediate (drop_while is_parameter t) with
        | f :: t' => if is_final f then Some t' else None
        | [] => None
        end
      else None
  | _ => None
  end.

(** Does every ESC of [s] begin a complete escape sequence? *)
Fixpoint escapes_complete (s : str) : bool :=
  match s with
  | [] => true
  | c :: t =>
      (negb (c =? ESC)%N ||
       match csi_rest s with Some _ => true | None => false end)
      && escapes_complete t
  end.

End Notions.

(* ================================================================== *)
(** * helpers/config_loader.py and main.py *)
(* ================================================================== *)

Module config_loader.
Import Py.

(** A record of [SSHDevice], as the loaded configuration gives it to
    [main]; [password] and [key_filename] are optional. *)
Record SSHDevice : Type := mkDevice {
  hostname : str;
  ip_address : str;
  port : Z;
  username : str;
  password : option str;
  key_filename : option str;
  commands_file : str
}.

End config_loader.

Module main_py.
Import Py Env ssh_manager.

(** [r"\:\~\$"], the prompt [main] waits for. *)
Definition prompt : str := lit "\:\~\$".

Section WithRegex.
Context `{RegexEngine}.

(** The body of the loop of [main] for one device.  The executor is built
    before the [try]; whatever is raised inside the [try] is logged, and the
    loop goes on. *)
Definition process_device (device : config_loader.SSHDevice) (w : world)
    : outcome unit * world :=
  match __init__ (config_loader.ip_address device) (config_loader.port device)
                 (config_loader.username device) (config_loader.password device)
                 (config_loader.key_filename device) []
                 (Some (config_loader.hostname device))
                 (Some (config_loader.commands_file device)) with
  | Raise e => (Raise e, w)
  | Pending => (Pending, w)
  | Return executor =>
      match connect executor 3 3 w with
      | (Return _, executor1, w1) =>
          match interactive_terminal executor1 w1 with
          | (Return _, executor2, w2) =>
              match wait_for_prompt executor2 prompt 30 w2 with
              | (Return _, w3) =>
                  match execute_commands_from_file executor2 prompt true 30 w3 with
                  | (Pending, w4) => (Pending, w4)
                  | (_, w4) => (Return tt, w4)
                  end
              | (Raise _, w3) => (Return tt, w3)
              | (Pending, w3) => (Pending, w3)
              end
          | (Raise _, _, w2) => (Return tt, w2)
          | (Pending, _, w2) => (Pending, w2)
          end
      | (Raise _, _, w1) => (Return tt, w1)
      | (Pending, _, w1) => (Pending, w1)
      end
  end.

(** [main]: [for device in config.ssh.devices]. *)
Fixpoint main (devices : list config_loader.SSHDevice) (w : world)
    : outcome unit * world :=
  match devices with
  | [] => (Return tt, w)
  | device :: rest =>
      match process_device device w with
      | (Return _, w1) => main rest w1
      | other => other
      end
  end.

End WithRegex.

End main_py.

(* ================================================================== *)
(** * Further notions and scenarios *)
(* ================================================================== *)

Module MoreNotions.
Import Py Env text_processor ssh_manager Notions.

(** The number of backspaces in a text. *)
Definition backspaces (s : str) : nat := length (filter (fun c => (c =? BS)%N) s).

(** The events of [wait_for_prompt]. *)
Definition is_wait_event (e : event) : bool :=
  match e with
  | Recv _ | Sleep _ | Select => true
  | _ => false
  end.

(** The events of [execute_command]. *)
Definition is_command_event (e : event) : bool :=
  match e with
  | Send _ | Recv _ | Append _ _ => true
  | _ => false
  end.

Definition is_append (e : event) : bool :=
  match e with Append _ _ => true | _ => false end.

Definition is_quit_key (data : str) : bool :=
  match data with
  | [c] => (c =? 113)%N
  | _ => false
  end.

(** The number of quit keystrokes sent, and the number of received chunks
    in which ["(END)"] is found once ["--More--"] has been taken out. *)
Definition quit_keys (l : list event) : nat :=
  length (filter is_quit_key (sent l)).

Definition ended_chunks (l : list event) : nat :=
  length (filter (fun chunk =>
            contains end_marker
              (if contains more_marker chunk
               then replace more_marker [] chunk else chunk))
          (received l)).

(** The file [log_output_to_file] appends to. *)
Definition sink_file (self : SSHCommandExecutor) (w : world) : str :=
  path_join
    (path_join (match data_dir w with Some d => d | None => [] end) (lit "output"))
    (lit "output_" ++ host self ++ lit "_"
     ++ (if truthy (hostname self)
         then match hostname self with Some h => h | None => [] end
         else lit "unknown_host")
     ++ lit ".txt").

(** Two worlds that differ at most in what is left of the scripts of the
    channel and the clock, and in the log. *)
Definition same_settings (w w' : world) : Prop :=
  connects w' = connects w /\ attempts w' = attempts w /\
  shell_fails w' = shell_fails w /\
  transport_active w' = transport_active w /\
  channel_closed w' = channel_closed w /\
  data_dir w' = data_dir w /\ write_fails w' = write_fails w /\
  files w' = files w.

(** Lines of a commands file that are commands. *)
Definition is_command_line (line : str) : bool := negb (is_nil (strip line)).

(** Has a device record a password or a key file? *)
Definition has_credential (device : config_loader.SSHDevice) : bool :=
  truthy (config_loader.password device)
  || truthy (config_loader.key_filename device).

End MoreNotions.

Module MoreScenarios.
Import Py Env text_processor ssh_manager Scenarios.

(** A text with typing corrections. *)
Definition typed : str := lit "shw" ++ [BS] ++ lit "ow" ++ [BS; BS; BS; BS; BS; BS] ++ lit "ls".

(** A device record with a password, one with both a password and a key
    file, and one with neither. *)
Definition switch1 : config_loader.SSHDevice :=
  config_loader.mkDevice (lit "sw1") (lit "10.0.0.1") 22 (lit "admin")
    (Some (lit "secret")) None (lit "commands.txt").

Definition switch2 : config_loader.SSHDevice :=
  config_loader.mkDevice (lit "sw2") (lit "10.0.0.2") 22 (lit "admin")
    (Some (lit "secret")) (Some (lit "id_rsa")) (lit "commands.txt").

Definition bare : config_loader.SSHDevice :=
  config_loader.mkDevice (lit "sw3") (lit "10.0.0.3") 22 (lit "admin")
    None None (lit "commands.txt").

(** The host is unreachable. *)
Definition unreachable : world :=
  mkWorld (fun i => SocketError i) 0 false [] [] [] false false None false
          (fun _ => NoFile) [].

(** The device accepts the connection and opens a shell, but never shows
    a prompt. *)
Definition no_prompt : world :=
  mkWorld (fun _ => Connected) 0 false [Some (lit "Welcome")] []
          [0; 0; 100; 31000]%Z false false None false (fun _ => NoFile) [].

(** The output directory is configured and the device answers one
    command. *)
Definition with_sink : world :=
  mkWorld (fun _ => Connected) 0 false
          [Some (lit "up 3 days" ++ [CR; LF] ++ lit "user@host:~$ ")] []
          [0; 10]%Z true false (Some (lit "/var/data")) false
          (fun _ => NoFile) [].

(** A pager that has reached the end of its output. *)
Definition paged_to_end : world :=
  set_polls [Some (lit "last line" ++ [LF] ++ lit "(END)");
             Some (lit "user@host:~$ ")]
    (set_clock [0; 10; 20]%Z idle).

(** The prompt is there, in one piece. *)
Definition prompt_ready : world :=
  set_polls [None; Some (lit "Welcome" ++ [LF] ++ lit "user@host:~$ ")]
    (set_clock [0; 0; 1100]%Z idle).

(** The same answer, without an output directory. *)
Definition without_sink : world :=
  mkWorld (fun _ => Connected) 0 false
          [Some (lit "up 3 days" ++ [CR; LF] ++ lit "user@host:~$ ")] []
          [0; 10]%Z true false None false (fun _ => NoFile) [].

(** The clock is past the deadline when the loop starts. *)
Definition late : world :=
  set_polls [Some (lit "user@host:~$ ")] (set_clock [0; 30000]%Z idle).

End MoreScenarios.

Unset Implicit Arguments.

(* ================================================================== *)
(** * Facts about the matcher *)
(* ================================================================== *)

Module ReFacts.
Import Py Re.

Lemma star_iter_length (step : str -> list str) :
  (forall s s', In s' (step s) -> length s' <= length s) ->
  forall fuel s s', In s' (star_iter step fuel s) -> length s' <= length s.
Proof.
  intros Hstep fuel; induction fuel as [|f IH]; intros s s' Hin; simpl in Hin.
  - destruct Hin as [<-|[]]; lia.
  - apply in_app_or in Hin as [Hin|[<-|[]]]; [|lia].
    apply in_flat_map in Hin as (x & Hx & Hin).
    destruct (length x <? length s) eqn:E; [|contradiction].
    apply Nat.ltb_lt in E. apply IH in Hin. lia.
Qed.

(** A match never leaves more text than there was. *)
Lemma rmatch_length n r :
  forall s s', In s' (rmatch n r s) -> length s' <= length s.
Proof.
  induction r; intros s s' Hin; simpl in Hin.
  - destruct Hin as [<-|[]]; lia.
  - destruct s as [|x t]; [contradiction|].
    destruct (x =? c)%N; [|contradiction]. destruct Hin as [<-|[]]; simpl; lia.
  - destruct s as [|x t]; [contradiction|].
    destruct (x =? LF)%N; [contradiction|]. destruct Hin as [<-|[]]; simpl; lia.
  - destruct s as [|x t]; [contradiction|].
    destruct (in_ranges x ranges); [|contradiction].
    destruct Hin as [<-|[]]; simpl; lia.
  - destruct (length s =? n); [|contradiction]. destruct Hin as [<-|[]]; lia.
  - destruct s as [|x [|y t]]; try contradiction.
    + destruct Hin as [<-|[]]; lia.
    + destruct (x =? LF)%N; [|contradiction]. destruct Hin as [<-|[]]; lia.
  - apply in_flat_map in Hin as (x & Hx & Hin).
    apply IHr1 in Hx. apply IHr2 in Hin. lia.
  - apply in_app_or in Hin as [Hin|Hin]; auto.
  - eapply star_iter_length; eauto.
Qed.

Lemma match_here_false n r s : match_here n r s = false -> rmatch n r s = [].
Proof.
  unfold match_here. destruct (rmatch n r s); [reflexivity|discriminate].
Qed.

Lemma search_from_cons n r c t :
  search_from n r (c :: t) = match_here n r (c :: t) || search_from n r t.
Proof. reflexivity. Qed.

(** Where the pattern matches nowhere, [sub] changes nothing. *)
Lemma sub_loop_no_match n r repl :
  forall fuel adv s,
    search_from n r s = false -> sub_loop fuel n r repl adv s = s.
Proof.
  induction fuel as [|f IH]; intros adv s Hs; [reflexivity|].
  simpl. destruct s as [|c t].
  - simpl in Hs. apply orb_false_iff in Hs as [Hm _].
    now rewrite (match_here_false _ _ _ Hm).
  - rewrite search_from_cons in Hs. apply orb_false_iff in Hs as [Hm Ht].
    rewrite (match_here_false _ _ _ Hm). simpl. now rewrite IH.
Qed.

Section Shrinking.
(** Patterns every match of which consumes something. *)
Variables (n : nat) (r : regex).
Hypothesis shrinks : forall s s', In s' (rmatch n r s) -> length s' < length s.

Lemma sub_loop_length :
  forall fuel adv s, length (sub_loop fuel n r [] adv s) <= length s.
Proof.
  induction fuel as [|f IH]; intros adv s; [simpl; lia|].
  simpl. destruct (find _ _) as [s'|] eqn:F.
  - apply find_some in F as [Hin _]. apply shrinks in Hin.
    simpl. specialize (IH (length s' =? length s) s'). lia.
  - destruct s as [|c t]; simpl; [lia|]. specialize (IH false t). lia.
Qed.

Lemma sub_loop_shorter :
  forall fuel adv s,
    search_from n r s = true -> length s < fuel ->
    length (sub_loop fuel n r [] adv s) < length s.
Proof.
  induction fuel as [|f IH]; intros adv s Hs Hf; [lia|].
  simpl. destruct (find _ _) as [s'|] eqn:F.
  - apply find_some in F as [Hin _]. apply shrinks in Hin.
    simpl. pose proof (sub_loop_length f (length s' =? length s) s'). lia.
  - assert (Hnil : rmatch n r s = []).
    { destruct (rmatch n r s) as [|x l] eqn:E; [reflexivity|].
      assert (Hx : In x (rmatch n r s)) by (rewrite E; now left).
      pose proof (shrinks _ _ Hx) as Hlt. rewrite <- E in F.
      pose proof (find_none _ _ F x Hx) as Hp. simpl in Hp.
      apply Nat.ltb_lt in Hlt. rewrite Hlt, orb_true_r in Hp. discriminate. }
    destruct s as [|c t].
    + simpl in Hs. unfold match_here in Hs. rewrite Hnil in Hs. discriminate.
    + rewrite search_from_cons in Hs. unfold match_here in Hs.
      rewrite Hnil in Hs. simpl in Hs, Hf |- *.
      specialize (IH false t Hs). lia.
Qed.

End Shrinking.

End ReFacts.

(* ================================================================== *)
(** * Properties of helpers/text_processor.py *)
(* ================================================================== *)

Module text_processor_facts.
Import Py Re ReFacts text_processor Notions Scenarios.

(** A match of the escape-sequence pattern starts with ESC, so it is not
    empty. *)
Lemma ansi_match_shrinks n s s' :
  In s' (rmatch n ansi_re s) -> length s' < length s.
Proof.
  unfold ansi_re. remember (Cat (Lit 91%N) _) as rest eqn:E. clear E.
  simpl. destruct s as [|x t]; [contradiction|].
  destruct (x =? ESC)%N; [|contradiction].
  simpl. rewrite app_nil_r. intros Hin. apply rmatch_length in Hin. simpl. lia.
Qed.

(** A greedy run of one character class, followed by something that
    cannot start with a character of the class: backtracking into the run
    finds nothing, and only the longest run counts. *)
Lemma star_class_then n rs (K : str -> list str) :
  (forall c t, in_ranges c rs = true -> K (c :: t) = []) ->
  forall fuel s, length s <= fuel ->
    flat_map K (star_iter (rmatch n (Class rs)) fuel s)
    = K (drop_while (fun c => in_ranges c rs) s).
Proof.
  intros HK fuel. induction fuel as [|f IH]; intros s Hf.
  - destruct s; [|simpl in Hf; lia]. simpl. now rewrite app_nil_r.
  - cbn [star_iter]. destruct s as [|c t].
    + simpl. now rewrite app_nil_r.
    + cbn [rmatch drop_while]. destruct (in_ranges c rs) eqn:Ec.
      * cbn [flat_map]. rewrite app_nil_r.
        assert (Hlt : (length t <? length (c :: t)) = true)
          by (apply Nat.ltb_lt; simpl; lia).
        rewrite Hlt, flat_map_app, IH by (simpl in Hf; lia).
        cbn [flat_map]. rewrite (HK c t Ec). now rewrite !app_nil_r.
      * simpl. now rewrite app_nil_r.
Qed.

Lemma drop_while_ext (p q : char -> bool) :
  (forall c, p c = q c) -> forall s, drop_while p s = drop_while q s.
Proof.
  intros Hpq s. induction s as [|c t IH]; [reflexivity|].
  simpl. rewrite Hpq, IH. reflexivity.
Qed.

(** The matches of the escape-sequence pattern are those of the scanner
    written by hand: at most one at each place. *)
Lemma ansi_match_is_csi n s :
  rmatch n ansi_re s = match csi_rest s with Some s' => [s'] | None => [] end.
Proof.
  unfold ansi_re, csi_rest.
  destruct s as [|e [|b t]].
  - reflexivity.
  - simpl. destruct (e =? ESC)%N; reflexivity.
  - cbn [rmatch]. destruct (e =? ESC)%N; [|reflexivity].
    cbn [flat_map]. destruct (b =? 91)%N; [|reflexivity].
    cbn [flat_map andb]. rewrite !app_nil_r.
    rewrite (star_class_then n [(48%N, 63%N)]
               (fun s0 => flat_map (rmatch n (Class [(64%N, 126%N)]))
                            (star_iter (rmatch n (Class [(32%N, 47%N)]))
                               (length s0) s0))).
    + rewrite (star_class_then n [(32%N, 47%N)]
                 (rmatch n (Class [(64%N, 126%N)]))).
      * rewrite (drop_while_ext (fun c => in_ranges c [(48%N, 63%N)]) is_parameter)
          by (intros c; unfold in_ranges, is_parameter; simpl; apply orb_false_r).
        rewrite (drop_while_ext (fun c => in_ranges c [(32%N, 47%N)]) is_intermediate)
          by (intros c; unfold in_ranges, is_intermediate; simpl; apply orb_false_r).
        destruct (drop_while is_intermediate (drop_while is_parameter t))
          as [|f t']; [reflexivity|].
        cbn [rmatch]. unfold in_ranges, is_final. simpl.
        rewrite orb_false_r. destruct (_ && _); reflexivity.
      * intros c t0 Hc. cbn [rmatch]. unfold in_ranges in *. simpl in *.
        rewrite orb_false_r in *. apply andb_prop in Hc as [H1 H2].
        apply N.leb_le in H1, H2.
        assert (H3 : (64 <=? c)%N = false) by (apply N.leb_gt; lia).
        now rewrite H3.
      * lia.
    + intros c t0 Hc. unfold in_ranges in Hc. simpl in Hc.
      rewrite orb_false_r in Hc. apply andb_prop in Hc as [H1 H2].
      apply N.leb_le in H1, H2.
      cbn [length star_iter rmatch].
      assert (H3 : in_ranges c [(32%N, 47%N)] = false).
      { unfold in_ranges. simpl. rewrite orb_false_r.
        apply andb_false_iff. right. apply N.leb_gt. lia. }
      assert (H4 : in_ranges c [(64%N, 126%N)] = false).
      { unfold in_ranges. simpl. rewrite orb_false_r.
        apply andb_false_iff. left. apply N.leb_gt. lia. }
      rewrite H3. cbn [flat_map app rmatch]. rewrite H4. reflexivity.
    + lia.
Qed.

Lemma csi_rest_shorter s s' : csi_rest s = Some s' -> length s' < length s.
Proof.
  intros E. apply (ansi_match_shrinks 0). rewrite ansi_match_is_csi, E. now left.
Qed.

(** On the escape-sequence pattern the result of [sub_loop] depends
    neither on the fuel, once there is enough of it, nor on the length of
    the subject, nor on [adv]. *)
Lemma sub_loop_ansi_stable : forall f1 f2 n1 n2 adv1 adv2 s,
  length s < f1 -> length s < f2 ->
  sub_loop f1 n1 ansi_re [] adv1 s = sub_loop f2 n2 ansi_re [] adv2 s.
Proof.
  induction f1 as [|f1 IH]; intros f2 n1 n2 adv1 adv2 s H1 H2; [lia|].
  destruct f2 as [|f2]; [lia|].
  cbn [sub_loop]. rewrite !ansi_match_is_csi.
  destruct (csi_rest s) as [s'|] eqn:E.
  - pose proof (csi_rest_shorter _ _ E) as Hlt.
    cbn [find]. apply Nat.ltb_lt in Hlt. rewrite Hlt, !orb_true_r.
    apply Nat.ltb_lt in Hlt. cbn [app]. apply IH; lia.
  - cbn [find]. destruct s as [|c t]; [reflexivity|].
    f_equal. simpl in H1, H2. apply IH; lia.
Qed.

(** [strip_ansi], unfolded: a sequence at the head is dropped and the scan
    goes on behind it; any other character is kept. *)
Lemma strip_ansi_unfold s :
  strip_ansi s =
  match csi_rest s with
  | Some s' => strip_ansi s'
  | None => match s with
            | [] => []
            | c :: t => c :: strip_ansi t
            end
  end.
Proof.
  unfold strip_ansi, sub at 1.
  replace (2 * length s + 2) with (S (2 * length s + 1)) by lia.
  cbn [sub_loop]. rewrite ansi_match_is_csi.
  destruct (csi_rest s) as [s'|] eqn:E.
  - pose proof (csi_rest_shorter _ _ E) as Hlt.
    cbn [find]. apply Nat.ltb_lt in Hlt. rewrite Hlt. simpl orb. cbv iota.
    apply Nat.ltb_lt in Hlt. cbn [app]. unfold sub.
    apply sub_loop_ansi_stable; lia.
  - cbn [find]. destruct s as [|c t]; [reflexivity|].
    f_equal. unfold sub. apply sub_loop_ansi_stable; simpl; lia.
Qed.

(** [strip_ansi] leaves a text as it is exactly when the text holds no
    escape sequence. *)
Lemma strip_ansi_fixpoint y :
  strip_ansi y = y <-> search ansi_re y = false.
Proof.
  unfold strip_ansi, sub, search. split.
  - intros Heq. destruct (search_from (length y) ansi_re y) eqn:S; [|reflexivity].
    pose proof (@sub_loop_shorter (length y) ansi_re
                  (@ansi_match_shrinks (length y))
                  (2 * length y + 2) false y S) as Hlt.
    rewrite Heq in Hlt. lia.
  - intros Hs. now apply sub_loop_no_match.
Qed.

(** The example of the specification: ["\x1b[31mRED\x1b[0m"] gives ["RED"]. *)
Example strip_ansi_red : strip_ansi red = lit "RED".
Proof. vm_compute. reflexivity. Qed.

(** C8, as stated, fails: on ["\x1b\x1b[0m[31m"] the first pass removes
    ["\x1b[0m"] and leaves ["\x1b[31m"], which a second pass removes. *)
Lemma strip_ansi_second_pass_differs :
  strip_ansi nested_escape = ESC :: lit "[31m" /\
  strip_ansi (strip_ansi nested_escape) = [] /\
  strip_ansi (strip_ansi nested_escape) <> strip_ansi nested_escape.
Proof. vm_compute. repeat split; discriminate. Qed.

Lemma drop_while_suffix p s : exists m, s = m ++ drop_while p s.
Proof.
  induction s as [|c t [m IH]]; [now exists []|].
  simpl. destruct (p c); [|now exists []].
  exists (c :: m). simpl. now rewrite <- IH.
Qed.

(** What follows an escape sequence is a suffix of the text. *)
Lemma csi_rest_suffix s s' : csi_rest s = Some s' -> exists m, s = m ++ s'.
Proof.
  unfold csi_rest. destruct s as [|e [|b t]]; try discriminate.
  destruct ((e =? ESC) && (b =? 91))%N; [|discriminate].
  destruct (drop_while_suffix is_parameter t) as [m1 H1].
  destruct (drop_while_suffix is_intermediate (drop_while is_parameter t))
    as [m2 H2].
  destruct (drop_while is_intermediate (drop_while is_parameter t))
    as [|f t'] eqn:E; [discriminate|].
  destruct (is_final f); [|discriminate].
  intros E'. injection E' as <-.
  exists (e :: b :: m1 ++ m2 ++ [f]). simpl. f_equal. f_equal.
  rewrite H1 at 1. rewrite H2 at 1. now rewrite <- !app_assoc.
Qed.

Lemma escapes_complete_suffix m : forall s,
  escapes_complete (m ++ s) = true -> escapes_complete s = true.
Proof.
  induction m as [|c m IH]; intros s H; [exact H|].
  simpl app in H. cbn [escapes_complete] in H.
  apply andb_prop in H as [_ H]. now apply IH.
Qed.

(** Where every ESC begins a complete sequence, no ESC is left. *)
Lemma strip_ansi_leaves_no_esc : forall k x,
  length x <= k -> escapes_complete x = true -> ~ In ESC (strip_ansi x).
Proof.
  induction k as [|k IH]; intros x Hk Hx.
  - destruct x; [|simpl in Hk; lia]. now vm_compute.
  - rewrite strip_ansi_unfold. destruct (csi_rest x) as [s'|] eqn:E.
    + pose proof (csi_rest_shorter _ _ E) as Hlt.
      destruct (csi_rest_suffix _ _ E) as [m Hm].
      apply IH; [lia|]. apply (escapes_complete_suffix m). now rewrite <- Hm.
    + destruct x as [|c t]; [now intros []|].
      cbn [escapes_complete] in Hx. rewrite E in Hx.
      apply andb_prop in Hx as [Hc Ht]. rewrite orb_false_r in Hc.
      apply negb_true_iff, N.eqb_neq in Hc.
      intros [Hin|Hin]; [now apply Hc|].
      revert Hin. apply IH; [simpl in Hk; lia|exact Ht].
Qed.

(** A text without ESC holds no escape sequence. *)
Lemma no_esc_no_match n : forall s,
  ~ In ESC s -> search_from n ansi_re s = false.
Proof.
  induction s as [|c t IH]; intros Hs.
  - reflexivity.
  - rewrite search_from_cons, IH by (intros Hin; apply Hs; now right).
    unfold match_here. rewrite ansi_match_is_csi. unfold csi_rest.
    destruct t as [|b t]; [reflexivity|].
    destruct (c =? ESC)%N eqn:Ec; [|reflexivity].
    apply N.eqb_eq in Ec. exfalso. apply Hs. now left.
Qed.

(** C8, amended: [strip_ansi] works in one pass from left to right.
    Stripping twice gives the same as stripping once exactly when no
    complete escape sequence is left after the first pass, and so for
    every text in which each ESC begins a complete escape sequence; it
    does not when the removal of a sequence brings the parts of another
    one together. *)
Theorem strip_ansi_twice (x : str) :
  (strip_ansi (strip_ansi x) = strip_ansi x <->
   search ansi_re (strip_ansi x) = false) /\
  (escapes_complete x = true ->
   strip_ansi (strip_ansi x) = strip_ansi x).
Proof.
  split; [apply strip_ansi_fixpoint|].
  intros Hx. apply strip_ansi_fixpoint. apply no_esc_no_match.
  now apply (strip_ansi_leaves_no_esc (length x)).
Qed.

Lemma strip_ansi_twice_witness :
  escapes_complete red = true /\
  strip_ansi (strip_ansi red) = strip_ansi red.
Proof.
  split; [reflexivity|].
  apply (proj2 (strip_ansi_twice red)). reflexivity.
Defined.

End text_processor_facts.

(* ================================================================== *)
(** * Properties of helpers/ssh_manager.py: construction and connect *)
(* ================================================================== *)

(* ================================================================== *)
(** * Facts about the event log *)
(* ================================================================== *)

Module EnvFacts.
Import Py Env text_processor ssh_manager Notions.

Lemma since_app w w' evs : log w' = log w ++ evs -> since w w' = evs.
Proof.
  unfold since. intros ->. rewrite skipn_app, skipn_all, Nat.sub_diag. reflexivity.
Qed.

Lemma since_refl w : since w w = [].
Proof. apply since_app. now rewrite app_nil_r. Qed.

Lemma emit_all_log evs : forall w, log (emit_all evs w) = log w ++ evs.
Proof.
  induction evs as [|e evs IH]; intros w; simpl.
  - now rewrite app_nil_r.
  - unfold emit_all in IH. rewrite IH. simpl. now rewrite <- app_assoc.
Qed.

Lemma emit_all_polls evs : forall w, polls (emit_all evs w) = polls w.
Proof.
  induction evs as [|e evs IH]; intros w; simpl; [reflexivity|].
  unfold emit_all in IH. now rewrite IH.
Qed.

Lemma emit_all_clock evs : forall w, clock (emit_all evs w) = clock w.
Proof.
  induction evs as [|e evs IH]; intros w; simpl; [reflexivity|].
  unfold emit_all in IH. now rewrite IH.
Qed.

Lemma emit_all_data_dir evs : forall w, data_dir (emit_all evs w) = data_dir w.
Proof.
  induction evs as [|e evs IH]; intros w; simpl; [reflexivity|].
  unfold emit_all in IH. now rewrite IH.
Qed.

Lemma emit_all_write_fails evs : forall w,
  write_fails (emit_all evs w) = write_fails w.
Proof.
  induction evs as [|e evs IH]; intros w; simpl; [reflexivity|].
  unfold emit_all in IH. now rewrite IH.
Qed.

Lemma sent_app a b : sent (a ++ b) = sent a ++ sent b.
Proof. apply flat_map_app. Qed.

Lemma received_app a b : received (a ++ b) = received a ++ received b.
Proof. apply flat_map_app. Qed.

Lemma received_pager_keys c : received (pager_keys c) = [].
Proof.
  unfold pager_keys.
  destruct (contains more_marker c);
    destruct (contains end_marker _); reflexivity.
Qed.

Lemma sent_pager_keys c :
  filter is_advance_key (sent (pager_keys c)) =
  if contains more_marker c then [[SP]] else [].
Proof.
  unfold pager_keys.
  destruct (contains more_marker c);
    destruct (contains end_marker _); reflexivity.
Qed.

(** The chunks can be read off the events they leave. *)
Lemma received_chunk_events cs :
  received (concat (map chunk_events cs)) = cs.
Proof.
  induction cs as [|c cs IH]; [reflexivity|].
  simpl. rewrite received_app, received_pager_keys, IH. reflexivity.
Qed.

(** One advance keystroke for each chunk that holds the marker. *)
Lemma advance_keys_chunk_events cs :
  advance_keys (concat (map chunk_events cs)) =
  length (filter (contains more_marker) cs).
Proof.
  unfold advance_keys. induction cs as [|c cs IH]; [reflexivity|].
  simpl. rewrite sent_app, filter_app, length_app, sent_pager_keys, IH.
  destruct (contains more_marker c); reflexivity.
Qed.

(** A delay that [time.sleep] accepts is slept. *)
Lemma sleep_seconds_ok delay w :
  sleep_ok delay ->
  sleep_seconds delay w = (Return tt, time_sleep (delay * 1000) w).
Proof.
  unfold sleep_ok, sleep_seconds. intros [H0 H1].
  destruct (Z.ltb_spec delay (- sleep_max)); [unfold sleep_max in *; lia|].
  destruct (Z.ltb_spec sleep_max delay); [lia|].
  destruct (Z.ltb_spec delay 0); [lia|]. reflexivity.
Qed.



(** The command line that is sent is not an advance keystroke. *)
Lemma command_line_is_no_key cmd : is_advance_key (cmd ++ [LF]) = false.
Proof. destruct cmd as [|a [|b t]]; reflexivity. Qed.

End EnvFacts.

Module connect_facts.
Import Py Env ssh_manager Notions Scenarios EnvFacts.

(** ** [__init__] *)

(** C6, as stated, fails: a password together with a key file is accepted. *)
Lemma init_accepts_both_credentials :
  truthy (Some (lit "secret")) = true /\
  truthy (Some (lit "id_rsa")) = true /\
  __init__ (lit "10.0.0.1") 22 (lit "admin") (Some (lit "secret"))
       (Some (lit "id_rsa")) [] None None
  = Return (mkExecutor (lit "10.0.0.1") 22 (lit "admin") (Some (lit "secret"))
                       (Some (lit "id_rsa")) default_ciphers None None false false).
Proof. repeat split. Qed.

(** C6, amended: construction succeeds exactly when at least one of the
    password and the key file is given and not empty; with neither it
    raises [ValueError]; with both it succeeds and keeps both. *)
Theorem init_needs_a_credential
    (h : str) (p : Z) (u : str) (pw key : option str) (cs : list str)
    (hn cf : option str) :
  __init__ h p u pw key cs hn cf =
  if truthy pw || truthy key
  then Return (mkExecutor h p u pw key
                 (match cs with [] => default_ciphers | _ :: _ => cs end)
                 hn cf false false)
  else Raise ValueError.
Proof.
  unfold __init__. destruct (truthy pw), (truthy key); reflexivity.
Qed.

(** ** [connect] *)




Section Attempts.
Variables (self : SSHCommandExecutor) (retries delay : Z).
Hypothesis delay_ok : sleep_ok delay.
Let key := truthy (key_filename self).


End Attempts.







End connect_facts.

(* ================================================================== *)
(** * Properties of helpers/ssh_manager.py: the command loop *)
(* ================================================================== *)

Module command_facts.
Import Py Env text_processor ssh_manager Notions Scenarios EnvFacts.

Lemma handle_pagination_eq chunk w :
  handle_pagination chunk w = (strip_markers chunk, emit_all (pager_keys chunk) w).
Proof.
  unfold handle_pagination, strip_markers, pager_keys, send.
  destruct (contains more_marker chunk);
    destruct (contains end_marker _); reflexivity.
Qed.

(** What the receive statement does, by the state of the channel. *)
Lemma receive_chunk_eq result w :
  receive_chunk result w =
  match polls w with
  | Some c :: ps =>
      (result ++ chunk_text c,
       emit_all (pager_keys c) (emit (Recv c) (set_polls ps w)))
  | None :: ps => (result, set_polls ps w)
  | [] => (result, w)
  end.
Proof.
  unfold receive_chunk, recv_ready, recv.
  destruct (polls w) as [|[c|] ps] eqn:E; try reflexivity.
  cbv beta iota zeta. rewrite E. cbv beta iota zeta.
  now rewrite handle_pagination_eq.
Qed.

Lemma time_time_log w now w1 : time_time w = Some (now, w1) -> log w1 = log w.
Proof.
  unfold time_time. destruct (clock w); [discriminate|].
  intros E. injection E as _ <-. reflexivity.
Qed.

Section AnyEngine.
Context `{engine : RegexEngine}.

(** A retained line matches none of the patterns, and the retained lines
    keep their order. *)
Lemma filter_lines_sound text patterns out :
  filter_lines text patterns = Return out ->
  exists kept,
    out = join [LF] kept /\
    kept = filter (fun line => is_nil (filter (fun p =>
             match re_search p line with Some true => true | _ => false end)
             patterns)) (splitlines text) /\
    forall line p, In line kept -> In p patterns ->
                   re_search p line = Some false.
Proof.
  unfold filter_lines.
  destruct (compile_all patterns) as [compiled|] eqn:Ec; [|discriminate].
  intros E. injection E as <-.
  assert (Hkeep : forall line,
    keep_line compiled line =
    is_nil (filter (fun p => match re_search p line with
                             | Some true => true | _ => false end) patterns)).
  { intros line. unfold keep_line. clear text.
    revert compiled Ec. induction patterns as [|p ps IH]; intros compiled Ec.
    - injection Ec as <-. reflexivity.
    - simpl in Ec. unfold re_search at 1. cbn [filter].
      destruct (re_compile p) as [c|]; [|discriminate].
      destruct (compile_all ps) as [cs|]; [|discriminate].
      injection Ec as <-. cbn [existsb].
      destruct (pattern_search c line); [reflexivity|].
      simpl. now apply IH. }
  exists (filter (keep_line compiled) (splitlines text)).
  split; [reflexivity|]. split.
  - apply filter_ext. exact Hkeep.
  - intros line p Hin Hp. apply filter_In in Hin as [_ Hk].
    unfold keep_line in Hk. apply negb_true_iff in Hk.
    clear Hkeep. revert compiled Ec Hk.
    induction patterns as [|q ps IH]; intros compiled Ec Hk; [contradiction|].
    simpl in Ec. destruct (re_compile q) as [c|] eqn:Eq; [|discriminate].
    destruct (compile_all ps) as [cs|]; [|discriminate].
    injection Ec as <-. cbn [existsb] in Hk.
    apply orb_false_iff in Hk as [Hc Hcs].
    destruct Hp as [->|Hp].
    + unfold re_search. now rewrite Eq, Hc.
    + now apply (IH Hp cs).
Qed.

(** When [wait_for_prompt] returns, it returns [True], and the chunk it
    has just received matches the pattern on its own. *)
Lemma wait_loop_returns : forall fuel prompt timeout start w b w',
  wait_loop fuel prompt timeout start w = (Return b, w') ->
  b = true /\
  exists evs c, log w' = log w ++ evs ++ [Recv c] /\
                re_search prompt c = Some true.
Proof.
  induction fuel as [|f IH]; intros prompt timeout start w b w' E;
    [discriminate|].
  cbn [wait_loop] in E.
  destruct (time_time w) as [[now w1]|] eqn:T; [|discriminate].
  pose proof (time_time_log _ _ _ T) as Hl1.
  destruct (now - start <? timeout * 1000)%Z; [|discriminate].
  unfold recv_ready, recv in E.
  destruct (polls w1) as [|[c|] ps] eqn:Ep; cbv beta iota zeta in E;
    rewrite ?Ep in E; cbv beta iota zeta in E.
  - unfold select in E. destruct (selects w1) as [|[|] rs];
      apply IH in E as (-> & evs & c & Hl & Hm); (split; [reflexivity|]);
      simpl in Hl; rewrite Hl1 in Hl.
    + exists ([Select; Sleep 100] ++ evs), c. split; [|exact Hm].
      rewrite Hl. now rewrite <- !app_assoc.
    + exists ([Select] ++ evs), c. split; [|exact Hm].
      rewrite Hl. now rewrite <- !app_assoc.
    + exists ([Select; Sleep 100] ++ evs), c. split; [|exact Hm].
      rewrite Hl. now rewrite <- !app_assoc.
  - destruct (re_search prompt c) as [[|]|] eqn:Em; [| |discriminate].
    + injection E as <- <-. split; [reflexivity|].
      exists [], c. simpl. rewrite Hl1. now split.
    + apply IH in E as (-> & evs & c' & Hl & Hm). split; [reflexivity|].
      simpl in Hl. rewrite Hl1 in Hl.
      exists ([Recv c; Sleep 100] ++ evs), c'. split; [|exact Hm].
      rewrite Hl. now rewrite <- !app_assoc.
  - unfold select in E. simpl in E. destruct (selects w1) as [|[|] rs];
      apply IH in E as (-> & evs & c & Hl & Hm); (split; [reflexivity|]);
      simpl in Hl; rewrite Hl1 in Hl.
    + exists ([Select; Sleep 100] ++ evs), c. split; [|exact Hm].
      rewrite Hl. now rewrite <- !app_assoc.
    + exists ([Select] ++ evs), c. split; [|exact Hm].
      rewrite Hl. now rewrite <- !app_assoc.
    + exists ([Select; Sleep 100] ++ evs), c. split; [|exact Hm].
      rewrite Hl. now rewrite <- !app_assoc.
Qed.

(** The loop of [execute_command] logs the received chunks, each followed
    by the keystrokes that answer it, and [result] grows by the text of
    each chunk, cleaned on its own. *)
Lemma execute_loop_trace : forall fuel prompt timeout start result w,
  exists chunks,
    (let '(_, r', w') := execute_loop fuel prompt timeout start result w in
     log w' = log w ++ concat (map chunk_events chunks) /\
     r' = result ++ concat (map chunk_text chunks)) /\
    (forall c ps, 0 < fuel -> polls w = Some c :: ps ->
                  exists cs, chunks = c :: cs).
Proof.
  induction fuel as [|f IH]; intros prompt timeout start result w.
  - exists []. simpl. rewrite !app_nil_r. repeat split. intros; lia.
  - cbn [execute_loop]. rewrite receive_chunk_eq.
    assert (Hstop : forall o r1 w1 cs,
      log w1 = log w ++ concat (map chunk_events cs) ->
      r1 = result ++ concat (map chunk_text cs) ->
      (forall c ps, polls w = Some c :: ps -> exists cs', cs = c :: cs') ->
      exists chunks,
        (let '(_, r', w') := ((o, r1, w1) : outcome unit * str * world) in
         log w' = log w ++ concat (map chunk_events chunks) /\
         r' = result ++ concat (map chunk_text chunks)) /\
        (forall c ps, 0 < S f -> polls w = Some c :: ps ->
                      exists cs', chunks = c :: cs')).
    { intros o r1 w1 cs Hl Hr Hc. exists cs. repeat split; auto.
      intros c ps _ Hp. eauto. }
    assert (Hgo : forall r1 w1 w2 cs,
      log w1 = log w ++ concat (map chunk_events cs) ->
      log w2 = log w1 ->
      r1 = result ++ concat (map chunk_text cs) ->
      (forall c ps, polls w = Some c :: ps -> exists cs', cs = c :: cs') ->
      exists chunks,
        (let '(_, r', w') := execute_loop f prompt timeout start r1 w2 in
         log w' = log w ++ concat (map chunk_events chunks) /\
         r' = result ++ concat (map chunk_text chunks)) /\
        (forall c ps, 0 < S f -> polls w = Some c :: ps ->
                      exists cs', chunks = c :: cs')).
    { intros r1 w1 w2 cs Hl Hl2 Hr Hc.
      destruct (IH prompt timeout start r1 w2) as (more & Hm & _).
      exists (cs ++ more).
      destruct (execute_loop f prompt timeout start r1 w2) as [[o r'] w'].
      destruct Hm as [Hm1 Hm2]. split; [split|].
      - rewrite Hm1, Hl2, Hl, map_app, concat_app. now rewrite app_assoc.
      - rewrite Hm2, Hr, map_app, concat_app. now rewrite app_assoc.
      - intros c ps _ Hp. destruct (Hc c ps Hp) as [cs' ->].
        exists (cs' ++ more). reflexivity. }
    destruct (polls w) as [|[c|] ps] eqn:E.
    + destruct (re_search prompt result) as [[|]|];
        try (apply (Hstop Pending _ _ []); simpl;
             [now rewrite app_nil_r|now rewrite app_nil_r|discriminate]).
      destruct (time_time w) as [[now w3]|] eqn:T;
        [|apply (Hstop Pending _ _ []); simpl;
          [now rewrite app_nil_r|now rewrite app_nil_r|discriminate]].
      destruct (now - start >? timeout * 1000)%Z.
      * apply (Hstop Pending _ _ []); simpl;
          [rewrite app_nil_r; apply (time_time_log _ _ _ T)
          |now rewrite app_nil_r|discriminate].
      * apply (Hgo _ w _ []); simpl;
          [now rewrite app_nil_r|apply (time_time_log _ _ _ T)
          |now rewrite app_nil_r|discriminate].
    + set (w1 := emit_all (pager_keys c) (emit (Recv c) (set_polls ps w))).
      assert (Hl : log w1 = log w ++ concat (map chunk_events [c])).
      { unfold w1. rewrite emit_all_log. simpl. rewrite app_nil_r.
        now rewrite <- app_assoc. }
      assert (Hr : result ++ chunk_text c =
                   result ++ concat (map chunk_text [c])).
      { simpl. now rewrite app_nil_r. }
      assert (Hc : forall c0 ps0, Some c :: ps = Some c0 :: ps0 ->
                                  exists cs', [c] = c0 :: cs').
      { intros c0 ps0 E0. injection E0 as -> _. now exists []. }
      destruct (re_search prompt (result ++ chunk_text c)) as [[|]|];
        try (apply (Hstop Pending _ _ [c]); assumption).
      destruct (time_time w1) as [[now w3]|] eqn:T;
        [|apply (Hstop Pending _ _ [c]); assumption].
      destruct (now - start >? timeout * 1000)%Z.
      * apply (Hstop Pending _ _ [c]); try assumption.
        now rewrite (time_time_log _ _ _ T).
      * apply (Hgo _ w1 _ [c]); try assumption. apply (time_time_log _ _ _ T).
    + destruct (re_search prompt result) as [[|]|];
        try (apply (Hstop Pending _ _ []); simpl;
             [now rewrite app_nil_r|now rewrite app_nil_r|discriminate]).
      destruct (time_time (set_polls ps w)) as [[now w3]|] eqn:T;
        [|apply (Hstop Pending _ _ []); simpl;
          [now rewrite app_nil_r|now rewrite app_nil_r|discriminate]].
      destruct (now - start >? timeout * 1000)%Z.
      * apply (Hstop Pending _ _ []); simpl;
          [rewrite app_nil_r; apply (time_time_log _ _ _ T)
          |now rewrite app_nil_r|discriminate].
      * apply (Hgo _ (set_polls ps w) _ []); simpl;
          [now rewrite app_nil_r|apply (time_time_log _ _ _ T)
          |now rewrite app_nil_r|discriminate].
Qed.

Lemma log_output_to_file_log self output w :
  let '(_, w') := log_output_to_file self output w in
  log w' = log w \/ exists f c, log w' = log w ++ [Append f c].
Proof.
  unfold log_output_to_file.
  destruct (negb (truthy (data_dir w))); [now left|].
  destruct (write_fails w); [now left|].
  right. simpl. eauto.
Qed.

(** The events of one call of [execute_command]: the command line, then
    the chunks with their keystrokes, then at most the write to the sink;
    and what is returned is computed from the texts of the chunks. *)
Lemma execute_command_events self cmd prompt to_file timeout w :
  exists pre chunks tail,
    let '(o, w') := execute_command self cmd prompt to_file timeout w in
    log w' = log w ++ pre ++ concat (map chunk_events chunks) ++ tail /\
    (pre = [] \/ pre = [Send (cmd ++ [LF])]) /\
    (tail = [] \/ exists f c, tail = [Append f c]) /\
    (channel self = true -> pre = [Send (cmd ++ [LF])]) /\
    (channel self = true -> clock w <> [] ->
     forall c ps, polls w = Some c :: ps -> exists cs, chunks = c :: cs) /\
    match o with
    | Return out =>
        exists filtered,
          filter_lines (concat (map chunk_text chunks)) [cmd; prompt]
          = Return filtered /\ out = dedent filtered
    | _ => True
    end.
Proof.
  unfold execute_command. destruct (channel self) eqn:Ec; simpl negb; cbv iota.
  - unfold time_time at 1. simpl clock.
    destruct (clock w) as [|t0 rest] eqn:Eclk.
    + exists [Send (cmd ++ [LF])], [], []. simpl. repeat split; auto.
      intros _ Hne. now contradiction Hne.
    + set (w2 := set_clock rest (send (cmd ++ [LF]) w)).
      destruct (execute_loop_trace (length (clock w2) + 1) prompt timeout
                  t0 [] w2) as (chunks & Htr & Hfirst).
      assert (Hhead : channel self = true -> t0 :: rest <> [] ->
                forall c ps, polls w = Some c :: ps ->
                             exists cs, chunks = c :: cs).
      { intros _ _ c ps Hp. apply (Hfirst c ps); [lia|exact Hp]. }
      destruct (execute_loop _ prompt timeout t0 [] w2) as [[o result] w3].
      destruct Htr as [Hl Hr]. simpl in Hl, Hr. subst result.
      assert (Hstop : log w3 = log w ++ [Send (cmd ++ [LF])]
                               ++ concat (map chunk_events chunks) ++ []).
      { rewrite Hl, app_nil_r. now rewrite <- app_assoc. }
      destruct o as [[]|e|].
      * destruct (filter_lines (concat (map chunk_text chunks)) [cmd; prompt])
          as [filtered|e|] eqn:Ef.
        -- destruct to_file.
           ++ pose proof (log_output_to_file_log self (dedent filtered) w3) as Hs.
              destruct (log_output_to_file self (dedent filtered) w3) as [o4 w4].
              destruct Hs as [Hs|(fn & c & Hs)].
              ** exists [Send (cmd ++ [LF])], chunks, [].
                 destruct o4 as [[]|e|]; rewrite Hs;
                   repeat split; eauto.
              ** exists [Send (cmd ++ [LF])], chunks, [Append fn c].
                 assert (Hl4 : log w4 = log w ++ [Send (cmd ++ [LF])]
                          ++ concat (map chunk_events chunks) ++ [Append fn c]).
                 { rewrite Hs, Hl. simpl. rewrite <- !app_assoc. reflexivity. }
                 destruct o4 as [[]|e|]; repeat split; eauto.
           ++ exists [Send (cmd ++ [LF])], chunks, []. repeat split; eauto.
        -- exists [Send (cmd ++ [LF])], chunks, []. repeat split; eauto.
        -- exists [Send (cmd ++ [LF])], chunks, []. repeat split; eauto.
      * exists [Send (cmd ++ [LF])], chunks, []. repeat split; eauto.
      * exists [Send (cmd ++ [LF])], chunks, []. repeat split; eauto.
  - exists [], [], []. simpl. rewrite app_nil_r. repeat split; auto; discriminate.
Qed.

(** The tests of the prompt in the loop of [execute_command]: the loop
    goes on to a further chunk only after a test of the buffer that found
    no match, and the way it is left tells the answer of the last test. *)
Lemma execute_loop_tests : forall fuel prompt timeout start result w,
  exists chunks,
    let '(o, r', w') := execute_loop fuel prompt timeout start result w in
    log w' = log w ++ concat (map chunk_events chunks) /\
    r' = result ++ concat (map chunk_text chunks) /\
    (forall j, j < length chunks ->
       (j = 0 -> forall c ps, polls w <> Some c :: ps) ->
       re_search prompt (result ++ concat (map chunk_text (firstn j chunks)))
       = Some false) /\
    match o with
    | Return _ => re_search prompt r' = Some true
    | Raise TimeoutError => re_search prompt r' = Some false
    | Raise ReError => re_search prompt r' = None
    | Raise _ => False
    | Pending => (fuel = 0 /\ chunks = []) \/ re_search prompt r' = Some false
    end.
Proof.
  induction fuel as [|f IH]; intros prompt timeout start result w.
  - exists []. simpl. rewrite !app_nil_r. repeat split; auto. intros j Hj. lia.
  - cbn [execute_loop]. rewrite receive_chunk_eq.
    assert (Hround : forall r1 w1 cs0,
      log w1 = log w ++ concat (map chunk_events cs0) ->
      r1 = result ++ concat (map chunk_text cs0) ->
      length cs0 <= 1 ->
      (cs0 <> [] -> exists c ps, polls w = Some c :: ps) ->
      exists chunks,
        let '(o, r', w') :=
          match re_search prompt r1 with
          | None => (Raise ReError, r1, w1)
          | Some true => (Return tt, r1, w1)
          | Some false =>
              match time_time w1 with
              | None => (Pending, r1, w1)
              | Some (now, w3) =>
                  if (now - start >? timeout * 1000)%Z
                  then (Raise TimeoutError, r1, w3)
                  else execute_loop f prompt timeout start r1 w3
              end
          end in
        log w' = log w ++ concat (map chunk_events chunks) /\
        r' = result ++ concat (map chunk_text chunks) /\
        (forall j, j < length chunks ->
           (j = 0 -> forall c ps, polls w <> Some c :: ps) ->
           re_search prompt (result ++ concat (map chunk_text (firstn j chunks)))
           = Some false) /\
        match o with
        | Return _ => re_search prompt r' = Some true
        | Raise TimeoutError => re_search prompt r' = Some false
        | Raise ReError => re_search prompt r' = None
        | Raise _ => False
        | Pending => (S f = 0 /\ chunks = []) \/ re_search prompt r' = Some false
        end).
    { intros r1 w1 cs0 Hl Hr Hlen Hfirst.
      assert (Hone : forall j, j < length cs0 ->
                (j = 0 -> forall c ps, polls w <> Some c :: ps) -> False).
      { intros j Hj H0. destruct cs0 as [|c0 cs0]; [simpl in Hj; lia|].
        destruct Hfirst as (c & ps & Hp); [discriminate|].
        simpl in Hlen, Hj. apply (H0 ltac:(lia) c ps Hp). }
      destruct (re_search prompt r1) as [[|]|] eqn:Em.
      - exists cs0. repeat split; auto. intros j Hj H0.
        now contradiction (Hone j Hj H0).
      - destruct (time_time w1) as [[now w3]|] eqn:T.
        + pose proof (time_time_log _ _ _ T) as Hl3.
          destruct (now - start >? timeout * 1000)%Z.
          * exists cs0. repeat split; auto; [congruence|].
            intros j Hj H0. now contradiction (Hone j Hj H0).
          * destruct (IH prompt timeout start r1 w3) as (more & Hm).
            exists (cs0 ++ more).
            destruct (execute_loop f prompt timeout start r1 w3)
              as [[o r'] w'].
            destruct Hm as (Hl' & Hr' & Hj' & Ho').
            split; [|split; [|split]].
            -- rewrite Hl', Hl3, Hl, map_app, concat_app.
               now rewrite app_assoc.
            -- rewrite Hr', Hr, map_app, concat_app. now rewrite app_assoc.
            -- intros j Hj H0.
               destruct cs0 as [|c0 [|c1 cs0]]; [| |simpl in Hlen; lia].
               ++ simpl in Hr. rewrite app_nil_r in Hr. subst r1.
                  simpl app in *. destruct j as [|j].
                  ** simpl. rewrite app_nil_r. exact Em.
                  ** apply Hj'; [exact Hj|discriminate].
               ++ simpl in Hr. rewrite app_nil_r in Hr.
                  destruct j as [|j].
                  ** destruct Hfirst as (c & ps & Hp); [discriminate|].
                     now contradiction (H0 eq_refl c ps).
                  ** change (firstn (S j) ([c0] ++ more))
                       with (c0 :: firstn j more).
                     cbn [map concat]. rewrite app_assoc, <- Hr.
                     simpl in Hj. destruct j as [|j].
                     --- simpl. rewrite app_nil_r. exact Em.
                     --- apply Hj'; [lia|discriminate].
            -- destruct o as [[]|e|]; try exact Ho'.
               right. destruct Ho' as [[_ ->]|Ho']; [|exact Ho'].
               rewrite Hr'. simpl. rewrite app_nil_r. exact Em.
        + exists cs0. repeat split; auto. intros j Hj H0.
          now contradiction (Hone j Hj H0).
      - exists cs0. repeat split; auto. intros j Hj H0.
        now contradiction (Hone j Hj H0). }
    destruct (polls w) as [|[c|] ps] eqn:E.
    + apply (Hround result w []); simpl;
        [now rewrite app_nil_r|now rewrite app_nil_r|lia|congruence].
    + apply (Hround (result ++ chunk_text c)
               (emit_all (pager_keys c) (emit (Recv c) (set_polls ps w))) [c]).
      * rewrite emit_all_log. simpl. rewrite app_nil_r.
        now rewrite <- app_assoc.
      * simpl. now rewrite app_nil_r.
      * simpl. lia.
      * intros _. now exists c, ps.
    + apply (Hround result (set_polls ps w) []); simpl;
        [now rewrite app_nil_r|now rewrite app_nil_r|lia|congruence].
Qed.

(** C2, amended: the buffer against which the loop of [execute_command]
    tests the prompt is the concatenation, in the order of arrival, of the
    chunks received, each one stripped of the pager markers found in it
    and normalised on its own.  It is this buffer that decides: the loop
    went on to each later chunk only after the buffer as it then stood had
    been tested without a match, and it is left with a return exactly on a
    match in [result], with [TimeoutError] after a test of [result] without
    a match, and with the error of the pattern when it does not compile. *)
Theorem execute_loop_buffer fuel prompt timeout start result w :
  let '(o, result', w') := execute_loop fuel prompt timeout start result w in
  let chunks := received (since w w') in
  result' = result ++ concat (map chunk_text chunks) /\
  (forall j, j < length chunks ->
     (j = 0 -> forall c ps, polls w <> Some c :: ps) ->
     re_search prompt (result ++ concat (map chunk_text (firstn j chunks)))
     = Some false) /\
  match o with
  | Return _ => re_search prompt result' = Some true
  | Raise TimeoutError => re_search prompt result' = Some false
  | Raise ReError => re_search prompt result' = None
  | Raise _ => False
  | Pending => fuel = 0 \/ re_search prompt result' = Some false
  end.
Proof.
  destruct (execute_loop_tests fuel prompt timeout start result w)
    as (chunks & Htr).
  destruct (execute_loop fuel prompt timeout start result w) as [[o r'] w'].
  destruct Htr as (Hl & Hr & Hj & Ho).
  rewrite (since_app _ _ _ Hl), received_chunk_events. cbv zeta.
  split; [exact Hr|]. split; [exact Hj|].
  destruct o as [[]|e|]; try exact Ho.
  destruct Ho as [[H0 _]|Ho]; [now left|now right].
Qed.

(** C3, amended: in every call of [execute_command], one advance
    keystroke is sent for each received chunk that holds the marker,
    whatever the number of markers in the chunk; and the text returned is
    computed from the chunks, each stripped of the markers found in it and
    normalised on its own. *)
Theorem execute_command_pagination self cmd prompt to_file timeout w :
  let '(o, w') := execute_command self cmd prompt to_file timeout w in
  advance_keys (since w w') = paged_chunks (since w w') /\
  match o with
  | Return out =>
      exists filtered,
        filter_lines (concat (map chunk_text (received (since w w'))))
                     [cmd; prompt] = Return filtered /\
        out = dedent filtered
  | _ => True
  end.
Proof.
  destruct (execute_command_events self cmd prompt to_file timeout w)
    as (pre & chunks & tail & Hev).
  destruct (execute_command self cmd prompt to_file timeout w) as [o w'].
  destruct Hev as (Hl & Hpre & Htail & _ & _ & Hout).
  rewrite (since_app _ _ _ Hl).
  assert (Hrecv : received (pre ++ concat (map chunk_events chunks) ++ tail)
                  = chunks).
  { rewrite !received_app, received_chunk_events.
    destruct Hpre as [->| ->]; destruct Htail as [->|(fn & c & ->)];
      simpl; now rewrite ?app_nil_r. }
  split.
  - unfold paged_chunks. rewrite Hrecv.
    rewrite <- advance_keys_chunk_events. unfold advance_keys.
    rewrite !sent_app, !filter_app, !length_app.
    destruct Hpre as [->| ->]; destruct Htail as [->|(fn & c & ->)];
      simpl; rewrite ?command_line_is_no_key; simpl; lia.
  - rewrite Hrecv. exact Hout.
Qed.

(** The loop of [execute_command] only uses up readings of the clock. *)
Lemma execute_loop_clock : forall fuel prompt timeout start result w,
  let '(_, _, w') := execute_loop fuel prompt timeout start result w in
  length (clock w') <= length (clock w).
Proof.
  induction fuel as [|f IH]; intros prompt timeout start result w;
    [simpl; lia|].
  cbn [execute_loop]. rewrite receive_chunk_eq.
  assert (Hround : forall r1 w1, clock w1 = clock w ->
    let '(_, _, w') :=
      match re_search prompt r1 with
      | None => (Raise ReError, r1, w1)
      | Some true => (Return tt, r1, w1)
      | Some false =>
          match time_time w1 with
          | None => (Pending, r1, w1)
          | Some (now, w3) =>
              if (now - start >? timeout * 1000)%Z
              then (Raise TimeoutError, r1, w3)
              else execute_loop f prompt timeout start r1 w3
          end
      end in
    length (clock w') <= length (clock w)).
  { intros r1 w1 Hc. rewrite <- Hc.
    destruct (re_search prompt r1) as [[|]|]; try (simpl; lia).
    unfold time_time. destruct (clock w1) as [|now rest] eqn:E;
      [rewrite E; simpl; lia|].
    destruct (now - start >? timeout * 1000)%Z; [simpl; lia|].
    specialize (IH prompt timeout start r1 (set_clock rest w1)).
    destruct (execute_loop f prompt timeout start r1 (set_clock rest w1))
      as [[o r'] w'].
    simpl in IH. simpl. lia. }
  destruct (polls w) as [|[c|] ps]; apply Hround;
    [reflexivity|now rewrite emit_all_clock|reflexivity].
Qed.

(** What [execute_command] does once its loop is left on a match: the
    filter, then the sink, which adds nothing to what was sent or
    received and does not read the clock. *)
Lemma command_end_clock self cmd prompt (to_file : bool) result (w3 : world) :
  let '(_, w') :=
    match filter_lines result [cmd; prompt] with
    | Return filtered_output =>
        if to_file
        then match log_output_to_file self (dedent filtered_output) w3 with
             | (Return _, w4) => (Return (dedent filtered_output), w4)
             | (Raise e, w4) => (Raise e, w4)
             | (Pending, w4) => (Pending, w4)
             end
        else (Return (dedent filtered_output), w3)
    | Raise e => (Raise e, w3)
    | Pending => (Pending, w3)
    end in
  clock w' = clock w3.
Proof.
  destruct (filter_lines result [cmd; prompt]) as [filtered|e|];
    try reflexivity.
  destruct to_file; [|reflexivity]. unfold log_output_to_file.
  destruct (negb (truthy (data_dir w3))); [reflexivity|].
  destruct (write_fails w3); reflexivity.
Qed.

Lemma command_end self cmd prompt (to_file : bool) w result (w3 : world) evs :
  log w3 = log w ++ evs ->
  data_dir w3 = data_dir w -> write_fails w3 = write_fails w ->
  let '(o, w') :=
    match filter_lines result [cmd; prompt] with
    | Return filtered_output =>
        if to_file
        then match log_output_to_file self (dedent filtered_output) w3 with
             | (Return _, w4) => (Return (dedent filtered_output), w4)
             | (Raise e, w4) => (Raise e, w4)
             | (Pending, w4) => (Pending, w4)
             end
        else (Return (dedent filtered_output), w3)
    | Raise e => (Raise e, w3)
    | Pending => (Pending, w3)
    end in
  received (since w w') = received evs /\
  sent (since w w') = sent evs /\
  o = match filter_lines result [cmd; prompt] with
      | Return filtered =>
          if to_file && negb (truthy (data_dir w)) then Raise ValueError
          else if to_file && write_fails w then Raise OSError
          else Return (dedent filtered)
      | Raise e => Raise e
      | Pending => Pending
      end.
Proof.
  intros Hl Hd Hw.
  destruct (filter_lines result [cmd; prompt]) as [filtered|e|];
    try (rewrite (since_app _ _ _ Hl); now repeat split).
  destruct to_file; simpl andb;
    [|rewrite (since_app _ _ _ Hl); now repeat split].
  unfold log_output_to_file. rewrite Hd, Hw.
  destruct (truthy (data_dir w)); simpl negb; cbv iota;
    [|rewrite (since_app _ _ _ Hl); now repeat split].
  destruct (write_fails w);
    [rewrite (since_app _ _ _ Hl); now repeat split|].
  rewrite (since_app w _ (evs ++ [Append _ _]))
    by (simpl log; rewrite Hl; now rewrite <- app_assoc).
  rewrite received_app, sent_app. simpl. rewrite !app_nil_r.
  now repeat split.
Qed.

(** C10, amended: with a prompt pattern that matches the empty string,
    [execute_command] sends the command and polls the channel before it
    tests the prompt.  When nothing is ready at that poll, for every
    command and with or without the sink, the prompt is tested against the
    empty [result] and the loop is left in its first round: the clock is
    not read again, nothing has been received, nothing but the command has
    been sent, and the call ends as the filter and the sink decide on the
    empty text, with the empty string whenever it returns.  When a chunk is
    ready at that poll, it is received before the prompt is tested, and
    the test of its text decides: on a match the loop is left in its first
    round with that text; without one the clock is read again and the loop
    goes on, unless the time is over. *)
Theorem execute_command_nullable_prompt
    self cmd prompt to_file timeout w t0 rest :
  channel self = true ->
  clock w = t0 :: rest ->
  re_search prompt [] = Some true ->
  let '(o, w') := execute_command self cmd prompt to_file timeout w in
  let sink (out : str) : outcome str :=
    if to_file && negb (truthy (data_dir w)) then Raise ValueError
    else if to_file && write_fails w then Raise OSError
    else Return out in
  ((forall c ps, polls w <> Some c :: ps) ->
   received (since w w') = [] /\
   sent (since w w') = [cmd ++ [LF]] /\
   clock w' = rest /\
   o = match re_compile cmd with
       | Some _ => sink []
       | None => Raise ReError
       end)
  /\
  (forall c ps,
   polls w = Some c :: ps ->
   firstn 2 (since w w') = [Send (cmd ++ [LF]); Recv c] /\
   match re_search prompt (chunk_text c) with
   | Some true =>
       received (since w w') = [c] /\
       clock w' = rest /\
       o = match filter_lines (chunk_text c) [cmd; prompt] with
           | Return filtered => sink (dedent filtered)
           | Raise e => Raise e
           | Pending => Pending
           end
   | Some false =>
       match rest with
       | [] => o = Pending
       | t1 :: later =>
           if (t1 - t0 >? timeout * 1000)%Z
           then o = Raise TimeoutError /\
                received (since w w') = [c] /\ clock w' = later
           else length (clock w') <= length later
       end
   | None => False
   end).
Proof.
  intros Hch Hclk Hnull.
  assert (Hprompt : exists pc, re_compile prompt = Some pc).
  { unfold re_search in Hnull. destruct (re_compile prompt) as [pc|];
      [now exists pc|discriminate]. }
  destruct Hprompt as [pc Hpc].
  assert (Hfirst2 : forall c ps, polls w = Some c :: ps ->
    firstn 2 (since w (snd (execute_command self cmd prompt to_file timeout w)))
    = [Send (cmd ++ [LF]); Recv c]).
  { intros c ps Hp.
    destruct (execute_command_events self cmd prompt to_file timeout w)
      as (pre & chunks & tail & Hev).
    destruct (execute_command self cmd prompt to_file timeout w) as [o w'].
    destruct Hev as (Hl & _ & _ & Hpre & Hfirst & _).
    rewrite (Hpre Hch) in Hl.
    destruct (Hfirst Hch ltac:(rewrite Hclk; discriminate) c ps Hp) as [cs ->].
    simpl snd. rewrite (since_app _ _ _ Hl). reflexivity. }
  destruct (execute_command self cmd prompt to_file timeout w) as [o w'] eqn:E.
  simpl snd in Hfirst2. cbv zeta.
  unfold execute_command in E. rewrite Hch in E. simpl negb in E.
  cbv iota in E. unfold time_time at 1 in E. simpl clock in E.
  rewrite Hclk in E. rewrite Nat.add_1_r in E. cbn [execute_loop] in E.
  rewrite receive_chunk_eq in E. simpl polls in E.
  set (w2 := set_clock rest (send (cmd ++ [LF]) w)) in E.
  assert (Hidle : forall w3,
    log w3 = log w ++ [Send (cmd ++ [LF])] -> clock w3 = rest ->
    data_dir w3 = data_dir w -> write_fails w3 = write_fails w ->
    match filter_lines [] [cmd; prompt] with
    | Return filtered_output =>
        if to_file
        then match log_output_to_file self (dedent filtered_output) w3 with
             | (Return _, w4) => (Return (dedent filtered_output), w4)
             | (Raise e, w4) => (Raise e, w4)
             | (Pending, w4) => (Pending, w4)
             end
        else (Return (dedent filtered_output), w3)
    | Raise e => (Raise e, w3)
    | Pending => (Pending, w3)
    end = (o, w') ->
    received (since w w') = [] /\
    sent (since w w') = [cmd ++ [LF]] /\
    clock w' = rest /\
    o = match re_compile cmd with
        | Some _ =>
            if to_file && negb (truthy (data_dir w)) then Raise ValueError
            else if to_file && write_fails w then Raise OSError
            else Return []
        | None => Raise ReError
        end).
  { intros w3 Hl Hc Hd Hw E3.
    pose proof (command_end self cmd prompt to_file w [] w3 _ Hl Hd Hw) as H.
    pose proof (command_end_clock self cmd prompt to_file [] w3) as Hk.
    rewrite E3 in H, Hk. destruct H as (Hr & Hs & Ho).
    split; [exact Hr|]. split; [exact Hs|]. split; [congruence|].
    rewrite Ho. unfold filter_lines, compile_all. rewrite Hpc.
    destruct (re_compile cmd); reflexivity. }
  destruct (polls w) as [|[c|] ps] eqn:Ep.
  - rewrite Hnull in E. split; [intros _|discriminate].
    apply (Hidle w2); auto.
  - set (w3 := emit_all (pager_keys c) (emit (Recv c) (set_polls ps w2))) in E.
    assert (Hl3 : log w3 = log w ++ [Send (cmd ++ [LF])]
                           ++ concat (map chunk_events [c])).
    { unfold w3. rewrite emit_all_log. simpl. rewrite app_nil_r.
      now rewrite <- !app_assoc. }
    assert (Hc3 : clock w3 = rest) by (unfold w3; now rewrite emit_all_clock).
    assert (Hd3 : data_dir w3 = data_dir w)
      by (unfold w3; now rewrite emit_all_data_dir).
    assert (Hw3 : write_fails w3 = write_fails w)
      by (unfold w3; now rewrite emit_all_write_fails).
    simpl app in E.
    split; [intros Hn; now contradiction (Hn c ps)|].
    intros c0 ps0 E0. injection E0 as <- <-.
    split; [now apply (Hfirst2 c ps)|].
    destruct (re_search prompt (chunk_text c)) as [[|]|] eqn:Em.
    + pose proof (command_end self cmd prompt to_file w (chunk_text c) w3 _
                    Hl3 Hd3 Hw3) as H.
      pose proof (command_end_clock self cmd prompt to_file (chunk_text c) w3)
        as Hk.
      rewrite E in H, Hk. destruct H as (Hr & Hs & Ho).
      rewrite received_app, received_chunk_events in Hr.
      split; [exact Hr|]. split; [congruence|exact Ho].
    + unfold time_time in E. rewrite Hc3 in E.
      destruct rest as [|t1 later].
      * now injection E as <- _.
      * destruct (t1 - t0 >? timeout * 1000)%Z.
        -- injection E as <- <-. split; [reflexivity|].
           rewrite (since_app w (set_clock later w3) _ Hl3).
           rewrite received_app, received_chunk_events. now split.
        -- match type of E with
           | context [execute_loop ?f ?p ?t ?s ?r ?ww] =>
               pose proof (execute_loop_clock f p t s r ww) as Hk;
               destruct (execute_loop f p t s r ww) as [[o2 r2] w4]
           end.
           simpl clock in Hk.
           pose proof (command_end_clock self cmd prompt to_file r2 w4) as Hk2.
           destruct o2 as [[]|e|];
             [rewrite E in Hk2; congruence
             |injection E as _ <-; exact Hk
             |injection E as _ <-; exact Hk].
    + unfold re_search in Em. rewrite Hpc in Em. discriminate.
  - rewrite Hnull in E. split; [intros _|discriminate].
    apply (Hidle (set_polls ps w2)); auto.
Qed.

(** ** The script runner *)

Lemma run_commands_app self prompt to_file timeout : forall pre rest w,
  run_commands self (pre ++ rest) prompt to_file timeout w =
  match run_commands self pre prompt to_file timeout w with
  | (Return _, w0) => run_commands self rest prompt to_file timeout w0
  | other => other
  end.
Proof.
  induction pre as [|line pre IH]; intros rest w; [reflexivity|].
  cbn [app run_commands].
  destruct (negb (is_nil (strip line))); [|apply IH].
  destruct (execute_command self (strip line) prompt to_file timeout w)
    as [[out|e|] w1]; [apply IH|reflexivity|reflexivity].
Qed.

Lemma execute_command_log self cmd prompt to_file timeout w :
  exists evs,
    log (snd (execute_command self cmd prompt to_file timeout w)) = log w ++ evs.
Proof.
  destruct (execute_command_events self cmd prompt to_file timeout w)
    as (pre & chunks & tail & Hev).
  destruct (execute_command self cmd prompt to_file timeout w) as [o w'].
  destruct Hev as [Hl _]. simpl. eauto.
Qed.

(** The log only grows while the commands are run. *)
Lemma run_commands_log self commands prompt to_file timeout : forall w,
  let '(_, w') := run_commands self commands prompt to_file timeout w in
  exists evs, log w' = log w ++ evs.
Proof.
  induction commands as [|line rest IH]; intros w; cbn [run_commands].
  - exists []. now rewrite app_nil_r.
  - destruct (negb (is_nil (strip line))); [|apply IH].
    destruct (execute_command_log self (strip line) prompt to_file timeout w)
      as [evs Hl].
    destruct (execute_command self (strip line) prompt to_file timeout w)
      as [[out|e|] w1]; simpl in Hl; eauto.
    specialize (IH w1).
    destruct (run_commands self rest prompt to_file timeout w1) as [o w2].
    destruct IH as [evs2 Hl2]. exists (evs ++ evs2).
    now rewrite Hl2, Hl, app_assoc.
Qed.

(** After [confirm_close], the channel of a session that has one is
    closed and the transport of a session that has a client is down. *)
Lemma confirm_close_post self w :
  (channel self = true -> channel_closed (confirm_close self w) = true) /\
  (client self = true -> transport_active (confirm_close self w) = false).
Proof.
  unfold confirm_close.
  destruct (channel self), (client self), (channel_closed w) eqn:Ec,
    (transport_active w) eqn:Et; simpl; rewrite ?Ec, ?Et; simpl;
    split; intros; auto; discriminate.
Qed.

(** C9, amended: the two checks of the commands file come before the
    [try]: without a commands file the runner raises [ValueError], with one
    that does not exist [FileNotFoundError], and in both cases nothing has
    been done: [confirm_close] has not run.  Once the commands file is
    given and exists, the first command that fails ends the run with its
    error, no later command is executed, and [confirm_close] runs on the
    way out, whether the runner returns or raises. *)
Theorem runner_aborts_and_closes self prompt to_file timeout w :
  (truthy (commands_file self) = false ->
   execute_commands_from_file self prompt to_file timeout w
   = (Raise ValueError, w))
  /\
  (forall path,
   commands_file self = Some path ->
   path <> [] ->
   (files w path = NoFile ->
    execute_commands_from_file self prompt to_file timeout w
    = (Raise FileNotFoundError, w))
   /\
   (forall pre c post e w0 w1,
      files w path = Lines (pre ++ c :: post) ->
      run_commands self pre prompt to_file timeout w = (Return tt, w0) ->
      strip c <> [] ->
      execute_command self (strip c) prompt to_file timeout w0 = (Raise e, w1) ->
      execute_commands_from_file self prompt to_file timeout w
      = (Raise e, confirm_close self w1))
   /\
   (files w path <> NoFile ->
    let '(o, w') := execute_commands_from_file self prompt to_file timeout w in
    o <> Pending ->
    (exists w1, w' = confirm_close self w1 /\
                exists evs, log w1 = log w ++ evs) /\
    (channel self = true -> channel_closed w' = true) /\
    (client self = true -> transport_active w' = false))).
Proof.
  split.
  { intros Hcf. unfold execute_commands_from_file. now rewrite Hcf. }
  intros path Hcf Hpath.
  assert (Htruthy : negb (truthy (commands_file self)) = false).
  { rewrite Hcf. destruct path; [contradiction|reflexivity]. }
  split; [|split].
  - intros Hfile. unfold execute_commands_from_file.
    now rewrite Htruthy, Hcf, Hfile.
  - intros pre c post e w0 w1 Hfile Hpre Hc Hexec.
    unfold execute_commands_from_file. rewrite Htruthy, Hcf, Hfile.
    rewrite run_commands_app, Hpre. cbn [run_commands].
    destruct (strip c) eqn:Es; [contradiction|]. simpl negb. cbv iota.
    rewrite Hexec. reflexivity.
  - intros Hfile. unfold execute_commands_from_file.
    rewrite Htruthy, Hcf.
    destruct (files w path) as [| | |commands] eqn:Ef; [contradiction| | |].
    + intros _. split; [|apply confirm_close_post].
      exists w. split; [reflexivity|]. exists []. now rewrite app_nil_r.
    + intros _. split; [|apply confirm_close_post].
      exists w. split; [reflexivity|]. exists []. now rewrite app_nil_r.
    + pose proof (run_commands_log self commands prompt to_file timeout w) as Hl.
      destruct (run_commands self commands prompt to_file timeout w)
        as [[[]|e|] w1]; intros Hp; try contradiction;
        (split; [exists w1; split; [reflexivity|exact Hl]
                |apply confirm_close_post]).
Qed.

End AnyEngine.

(** ** The program on the scenarios *)

(** C1: [wait_for_prompt] searches each chunk on its own.  The prompt
    [":~$"] arrives as ["user@host:~"] and ["$ "], both long before the 30
    seconds are over; the text received matches the pattern, and
    [wait_for_prompt] raises [TimeoutError]. *)
Theorem wait_for_prompt_misses_split_prompt :
  let '(o, w') := wait_for_prompt device shell_prompt 30 split_prompt in
  o = Raise TimeoutError /\
  received (since split_prompt w') = [lit "user@host:~"; lit "$ "] /\
  re_search shell_prompt (concat (received (since split_prompt w')))
  = Some true.
Proof. vm_compute. repeat split. Qed.

(** C2, as stated, fails: a backspace at the head of a chunk does not
    reach into the chunk before it, and an escape sequence cut by the
    chunk boundary is not removed. *)
Lemma split_sequences_are_not_normalised :
  (let '(_, result, w') := execute_loop 3 shell_prompt 30 0 [] split_backspace in
   result = lit "abc:~$ " /\
   clean (strip_markers (concat (received (since split_backspace w'))))
   = lit "ac:~$ ") /\
  (let '(_, result, w') := execute_loop 3 shell_prompt 30 0 [] split_escape in
   result = ESC :: lit "[31mRED:~$ " /\
   clean (strip_markers (concat (received (since split_escape w'))))
   = lit "RED:~$ ").
Proof. vm_compute. repeat split. Qed.

Lemma execute_loop_buffer_witness :
  let '(o, result', w') := execute_loop 3 shell_prompt 30 0 [] split_backspace in
  o = Return tt /\
  result' = chunk_text (lit "ab") ++ chunk_text (BS :: lit "c:~$ ") /\
  re_search shell_prompt (chunk_text (lit "ab")) = Some false /\
  re_search shell_prompt result' = Some true.
Proof.
  pose proof (execute_loop_buffer (engine := py_re) 3 shell_prompt 30 0 []
                split_backspace) as H.
  assert (Ho : fst (fst (execute_loop 3 shell_prompt 30 0 [] split_backspace))
               = Return tt) by (vm_compute; reflexivity).
  assert (Hc : received (since split_backspace
                 (snd (execute_loop 3 shell_prompt 30 0 [] split_backspace)))
               = [lit "ab"; BS :: lit "c:~$ "]) by (vm_compute; reflexivity).
  destruct (execute_loop 3 shell_prompt 30 0 [] split_backspace)
    as [[o result'] w'].
  simpl in Ho, Hc. subst o. cbv zeta in H. rewrite Hc in H.
  destruct H as (Hr & Hj & Hm).
  split; [reflexivity|]. split; [|split; [|exact Hm]].
  - rewrite Hr. cbn [map concat app]. now rewrite app_nil_r.
  - specialize (Hj 1 ltac:(simpl; lia) ltac:(discriminate)).
    cbn [firstn map concat app] in Hj. rewrite app_nil_r in Hj. exact Hj.
Defined.

(** C3, as stated, fails: a chunk with two markers is answered with one
    keystroke, and a marker cut by the chunk boundary is returned. *)
Lemma pagination_is_per_chunk :
  (let '(_, w') :=
     execute_command device (lit "show log") shell_prompt false 30 paged_twice in
   marker_occurrences (since paged_twice w') = 2 /\
   advance_keys (since paged_twice w') = 1) /\
  (let '(o, _) :=
     execute_command device (lit "show log") shell_prompt false 30 marker_cut in
   o = Return (lit "line1" ++ [LF] ++ lit "--More--") /\
   contains more_marker (lit "line1" ++ [LF] ++ lit "--More--") = true).
Proof. vm_compute. repeat split. Qed.

(** C7: the command is compiled as a pattern.  In ["echo $HOME"] the [$]
    asks for the end of the line, so the pattern matches no line, and the
    echo of the command stays in the text that is returned. *)
Theorem command_echo_is_kept :
  let '(o, _) :=
    execute_command device (lit "echo $HOME") shell_prompt false 30 echo_home in
  o = Return (lit "echo $HOME" ++ [LF] ++ lit "/home/user") /\
  In (lit "echo $HOME") (splitlines (lit "echo $HOME" ++ [LF] ++ lit "/home/user")) /\
  contains (lit "echo $HOME") (lit "echo $HOME") = true.
Proof. vm_compute. repeat split. now left. Qed.

(** C9, as stated, fails: without a commands file, or with one that does
    not exist, the runner raises and leaves the channel open and the
    transport up, although [confirm_close] would have closed them. *)
Lemma runner_checks_come_before_the_try :
  execute_commands_from_file device_no_script shell_prompt false 30 idle
  = (Raise ValueError, idle) /\
  execute_commands_from_file device shell_prompt false 30 idle
  = (Raise FileNotFoundError, idle) /\
  channel_closed idle = false /\ transport_active idle = true /\
  filter is_close (log (confirm_close device idle)) = [ChannelClose; ClientClose].
Proof. repeat split. Qed.

(** C10, as stated, fails: the pattern [^$] matches the empty string; with
    a chunk waiting, [execute_command] receives it before it tests the
    prompt, does not leave the loop, and ends in [TimeoutError]. *)
Lemma waiting_data_is_received_first :
  re_search (lit "^$") [] = Some true /\
  let '(o, w') :=
    execute_command device (lit "show") (lit "^$") false 30 data_waiting in
  o = Raise TimeoutError /\
  received (since data_waiting w') = [lit "abc"].
Proof. vm_compute. repeat split. Qed.

Lemma execute_command_nullable_prompt_witness :
  (let '(o, w') :=
     execute_command device (lit "show version") (lit ">*") false 30 nothing_ready in
   received (since nothing_ready w') = [] /\
   sent (since nothing_ready w') = [lit "show version" ++ [LF]] /\
   clock w' = [] /\ o = Return []) /\
  (let '(o, w') :=
     execute_command device (lit "show") (lit "^$") false 30 data_waiting in
   firstn 2 (since data_waiting w') = [Send (lit "show" ++ [LF]); Recv (lit "abc")] /\
   length (clock w') <= 2).
Proof.
  split.
  - pose proof (execute_command_nullable_prompt (engine := py_re) device
                  (lit "show version") (lit ">*") false 30 nothing_ready
                  0%Z [] eq_refl eq_refl ltac:(vm_compute; reflexivity)) as H.
    destruct (execute_command device (lit "show version") (lit ">*") false 30
                nothing_ready) as [o w'].
    cbv zeta in H. destruct H as [H _].
    destruct (H ltac:(intros c ps; discriminate)) as (Hr & Hs & Hc & Ho).
    split; [exact Hr|]. split; [exact Hs|]. split; [exact Hc|].
    rewrite Ho. vm_compute. reflexivity.
  - pose proof (execute_command_nullable_prompt (engine := py_re) device
                  (lit "show") (lit "^$") false 30 data_waiting
                  0%Z [10; 20; 31000]%Z eq_refl eq_refl
                  ltac:(vm_compute; reflexivity)) as H.
    destruct (execute_command device (lit "show") (lit "^$") false 30
                data_waiting) as [o w'].
    cbv zeta in H. destruct H as [_ H].
    destruct (H (lit "abc") [] eq_refl) as [H1 H2].
    split; [exact H1|].
    assert (Em : re_search (lit "^$") (chunk_text (lit "abc")) = Some false)
      by (vm_compute; reflexivity).
    rewrite Em in H2. exact H2.
Defined.

Lemma runner_aborts_and_closes_witness :
  (execute_commands_from_file device_no_script shell_prompt false 30 idle
   = (Raise ValueError, idle)) /\
  (execute_commands_from_file device shell_prompt false 30 idle
   = (Raise FileNotFoundError, idle)) /\
  (let '(o, w') :=
     execute_commands_from_file device shell_prompt false 30 silent_after_first in
   o = Raise TimeoutError /\
   sent (log w') = [lit "show version" ++ [LF]; lit "show clock" ++ [LF]] /\
   channel_closed w' = true /\ transport_active w' = false).
Proof.
  split; [|split].
  - apply (proj1 (runner_aborts_and_closes (engine := py_re) device_no_script
                    shell_prompt false 30 idle)).
    reflexivity.
  - apply (proj1 (proj2 (runner_aborts_and_closes (engine := py_re) device
                           shell_prompt false 30 idle)
                    (lit "commands.txt") eq_refl ltac:(discriminate))).
    reflexivity.
  - rewrite (proj1 (proj2 (proj2 (runner_aborts_and_closes (engine := py_re)
                                    device shell_prompt false 30
                                    silent_after_first)
                             (lit "commands.txt") eq_refl ltac:(discriminate)))
               [lit "show version" ++ [LF]; lit "   " ++ [LF]]
               (lit "show clock" ++ [LF]) [lit "show users" ++ [LF]]
               TimeoutError
               (snd (run_commands device
                       [lit "show version" ++ [LF]; lit "   " ++ [LF]]
                       shell_prompt false 30 silent_after_first))
               (snd (execute_command device (lit "show clock") shell_prompt
                       false 30
                       (snd (run_commands device
                               [lit "show version" ++ [LF]; lit "   " ++ [LF]]
                               shell_prompt false 30 silent_after_first))))
               ltac:(vm_compute; reflexivity) ltac:(vm_compute; reflexivity)
               ltac:(vm_compute; discriminate) ltac:(vm_compute; reflexivity)).
    repeat split.
Defined.

End command_facts.

(* ================================================================== *)
(** * Further properties of helpers/text_processor.py *)
(* ================================================================== *)

Module text_processor_more.
Import Py Re ReFacts text_processor Notions MoreNotions Scenarios MoreScenarios.
Import text_processor_facts.

(** ** [clean_text] *)

Lemma In_removelast (x : char) : forall l, In x (removelast l) -> In x l.
Proof.
  induction l as [|a l IH]; [contradiction|].
  simpl. destruct l as [|b l]; [contradiction|].
  intros [->|Hin]; [now left|right; now apply IH].
Qed.

Lemma length_removelast_cons (a : char) l :
  length (removelast (a :: l)) = length l.
Proof.
  revert a. induction l as [|b l IH]; intros a; [reflexivity|].
  change (removelast (a :: b :: l)) with (a :: removelast (b :: l)).
  cbn [length]. f_equal. apply IH.
Qed.

Lemma clean_text_loop_no_backspace : forall text stack,
  ~ In BS stack -> ~ In BS (clean_text_loop stack text).
Proof.
  induction text as [|c rest IH]; intros stack Hs; [exact Hs|].
  cbn [clean_text_loop]. destruct (c =? BS)%N eqn:Ec; simpl negb; cbv iota.
  - destruct stack as [|a stack]; apply IH; [exact Hs|].
    intros Hin. apply Hs. now apply In_removelast.
  - apply IH. intros Hin. apply in_app_or in Hin as [Hin|[E|[]]];
      [now apply Hs|]. rewrite E, N.eqb_refl in Ec. discriminate.
Qed.

(** X1: the text [clean_text] returns holds no backspace. *)
Theorem clean_text_no_backspace (text : str) : ~ In BS (clean_text text).
Proof. apply clean_text_loop_no_backspace. intros []. Qed.

Lemma clean_text_loop_plain : forall text stack,
  ~ In BS text -> clean_text_loop stack text = stack ++ text.
Proof.
  induction text as [|c rest IH]; intros stack Ht.
  - simpl. now rewrite app_nil_r.
  - cbn [clean_text_loop]. destruct (c =? BS)%N eqn:Ec.
    + apply N.eqb_eq in Ec. exfalso. apply Ht. now left.
    + simpl negb. cbv iota. rewrite IH by (intros Hin; apply Ht; now right).
      now rewrite <- app_assoc.
Qed.

(** X2: [clean_text] is idempotent. *)
Theorem clean_text_idempotent (text : str) :
  clean_text (clean_text text) = clean_text text.
Proof.
  unfold clean_text at 1. rewrite clean_text_loop_plain; [reflexivity|].
  apply clean_text_loop_no_backspace. intros [].
Qed.

Lemma clean_text_loop_length : forall text stack,
  length (clean_text_loop stack text) + backspaces text
    <= length stack + length text /\
  length stack + length text
    <= length (clean_text_loop stack text) + 2 * backspaces text.
Proof.
  unfold backspaces.
  induction text as [|c rest IH]; intros stack; [simpl; lia|].
  cbn [clean_text_loop filter]. destruct (c =? BS)%N; simpl negb; cbv iota.
  - destruct stack as [|a stack].
    + specialize (IH []). simpl in *. lia.
    + specialize (IH (removelast (a :: stack))).
      rewrite length_removelast_cons in IH. simpl length in *. lia.
  - specialize (IH (stack ++ [c])). rewrite length_app in IH. simpl in *. lia.
Qed.

(** X3: every backspace takes itself and at most one more character out
    of the text: with [b] backspaces in a text of length [n], the length
    of the result is between [n - 2b] and [n - b]. *)
Theorem clean_text_length (text : str) :
  length (clean_text text) + backspaces text <= length text /\
  length text <= length (clean_text text) + 2 * backspaces text.
Proof. apply (clean_text_loop_length text []). Qed.

Lemma clean_text_loop_app : forall a b stack,
  clean_text_loop stack (a ++ b) = clean_text_loop (clean_text_loop stack a) b.
Proof.
  induction a as [|c a IH]; intros b stack; [reflexivity|].
  cbn [app clean_text_loop]. destruct (negb (c =? BS)%N); [apply IH|].
  destruct stack; apply IH.
Qed.

(** Text without backspaces that follows is left as it is: cleaning
    [a ++ b] is cleaning [a] and appending [b]. *)
Lemma clean_text_app_plain (a b : str) :
  ~ In BS b -> clean_text (a ++ b) = clean_text a ++ b.
Proof.
  intros Hb. unfold clean_text. rewrite clean_text_loop_app.
  now apply clean_text_loop_plain.
Qed.

(** ** [strip_ansi] *)

(** A text without ESC is returned as it is. *)
Lemma strip_ansi_plain (text : str) :
  ~ In ESC text -> strip_ansi text = text.
Proof.
  intros Ht. apply strip_ansi_fixpoint. now apply no_esc_no_match.
Qed.

Lemma strip_ansi_incl_upto : forall k s,
  length s <= k -> incl (strip_ansi s) s.
Proof.
  induction k as [|k IH]; intros s Hk.
  - destruct s; [|simpl in Hk; lia]. now vm_compute.
  - rewrite strip_ansi_unfold. destruct (csi_rest s) as [s'|] eqn:E.
    + pose proof (csi_rest_shorter _ _ E) as Hlt.
      destruct (csi_rest_suffix _ _ E) as [m Hm].
      intros c Hc. rewrite Hm. apply in_or_app. right.
      revert c Hc. apply IH. lia.
    + destruct s as [|c t]; [intros c []|].
      intros x [<-|Hx]; [now left|right].
      revert x Hx. apply IH. simpl in Hk. lia.
Qed.

(** X4: [strip_ansi] only takes characters out: the result is not longer
    than the text, and every character of it is one of the text. *)
Theorem strip_ansi_only_removes (text : str) :
  length (strip_ansi text) <= length text /\ incl (strip_ansi text) text.
Proof.
  split.
  - unfold strip_ansi, sub.
    apply (sub_loop_length (length text) ansi_re
             (ansi_match_shrinks (length text))).
  - now apply (strip_ansi_incl_upto (length text)).
Qed.

(** X5: [strip_ansi] is a scan from left to right: where an escape
    sequence (ESC, "[", parameter bytes, intermediate bytes, final byte)
    begins, the scan goes on behind it; any other character is kept. *)
Theorem strip_ansi_scans (text : str) :
  strip_ansi text =
  match csi_rest text with
  | Some rest => strip_ansi rest
  | None => match text with
            | [] => []
            | c :: t => c :: strip_ansi t
            end
  end.
Proof. apply strip_ansi_unfold. Qed.

Lemma strip_ansi_keeps_prefix (a b : str) :
  ~ In ESC a -> strip_ansi (a ++ b) = a ++ strip_ansi b.
Proof.
  induction a as [|c a IH]; intros Ha; [reflexivity|].
  rewrite strip_ansi_unfold.
  assert (Hc : (c =? ESC)%N = false).
  { apply N.eqb_neq. intros ->. apply Ha. now left. }
  assert (E : csi_rest ((c :: a) ++ b) = None).
  { simpl. destruct (a ++ b); [reflexivity|]. now rewrite Hc. }
  rewrite E. simpl. f_equal. apply IH. intros Hin. apply Ha. now right.
Qed.

(** X6: text without ESC in front is kept, and what follows is stripped
    as if it stood alone. *)
Theorem strip_ansi_app_plain (a b : str) :
  ~ In ESC a -> strip_ansi (a ++ b) = a ++ strip_ansi b.
Proof. apply strip_ansi_keeps_prefix. Qed.

Lemma strip_ansi_app_plain_witness :
  ~ In ESC (lit "RED") /\
  strip_ansi (lit "RED" ++ red) = lit "RED" ++ strip_ansi red.
Proof.
  assert (H : ~ In ESC (lit "RED")).
  { simpl. intros [H|[H|[H|[]]]]; discriminate. }
  split; [exact H|]. apply (strip_ansi_app_plain (lit "RED") red H).
Defined.

(** ** [clean] *)

(** X7: when the first of two pieces of text holds no ESC and the second
    no backspace, cleaning them one by one gives the same as cleaning them
    together. *)
Theorem clean_app (a b : str) :
  ~ In ESC a -> ~ In BS b -> clean (a ++ b) = clean a ++ clean b.
Proof.
  intros Ha Hb. unfold clean.
  assert (Hsb : ~ In BS (strip_ansi b)).
  { intros Hin. apply Hb. now apply (strip_ansi_incl_upto (length b) b). }
  rewrite strip_ansi_keeps_prefix by exact Ha.
  rewrite clean_text_app_plain by exact Hsb.
  rewrite (strip_ansi_plain a Ha). f_equal.
  unfold clean_text. now rewrite clean_text_loop_plain.
Qed.

Lemma clean_app_witness :
  ~ In ESC typed /\ ~ In BS red /\
  clean (typed ++ red) = clean typed ++ clean red.
Proof.
  assert (Ha : ~ In ESC typed).
  { unfold typed. simpl. intros H.
    repeat (destruct H as [H|H]; [discriminate|]). exact H. }
  assert (Hb : ~ In BS red).
  { unfold red. simpl. intros H.
    repeat (destruct H as [H|H]; [discriminate|]). exact H. }
  split; [exact Ha|]. split; [exact Hb|]. apply (clean_app typed red Ha Hb).
Defined.

End text_processor_more.

(* ================================================================== *)
(** * Properties of [filter_lines] and [dedent] *)
(* ================================================================== *)

Module lines_more.
Import Py text_processor Notions MoreNotions.

Lemma splitlines_from_LF t :
  splitlines_from [] (LF :: t) = [] :: splitlines_from [] t.
Proof. simpl. destruct t; reflexivity. Qed.

(** No line of [splitlines] holds a line boundary. *)
Lemma splitlines_from_no_linebreak : forall s cur l,
  (forall c, In c cur -> is_linebreak c = false) ->
  In l (splitlines_from cur s) ->
  forall c, In c l -> is_linebreak c = false.
Proof.
  induction s as [|x t IH]; intros cur l Hcur Hl.
  - simpl in Hl. destruct cur; [contradiction|].
    destruct Hl as [<-|[]]. exact Hcur.
  - cbn [splitlines_from] in Hl. destruct (is_linebreak x) eqn:Ex.
    + destruct Hl as [<-|Hl]; [exact Hcur|].
      assert (Hnil : forall c : char, In c [] -> is_linebreak c = false)
        by (intros c []).
      destruct t as [|d t']; [now apply (IH [] l Hnil)|].
      destruct ((x =? CR) && (d =? LF))%N eqn:E; [|now apply (IH [] l Hnil)].
      apply andb_prop in E as [_ Ed]. apply N.eqb_eq in Ed. subst d.
      apply (IH [] l Hnil). rewrite splitlines_from_LF. now right.
    + apply (IH (cur ++ [x]) l); [|exact Hl].
      intros c Hc. apply in_app_or in Hc as [Hc|[<-|[]]]; auto.
Qed.

Lemma In_join c sep : forall parts,
  In c (join sep parts) -> In c sep \/ exists p, In p parts /\ In c p.
Proof.
  induction parts as [|p rest IH]; [contradiction|].
  destruct rest as [|q rest].
  - intros Hc. right. exists p. split; [now left|exact Hc].
  - change (join sep (p :: q :: rest)) with (p ++ sep ++ join sep (q :: rest)).
    intros Hc. apply in_app_or in Hc as [Hc|Hc].
    + right. exists p. split; [now left|exact Hc].
    + apply in_app_or in Hc as [Hc|Hc]; [now left|].
      destruct (IH Hc) as [Hs|(p' & Hp & Hc')]; [now left|].
      right. exists p'. split; [now right|exact Hc'].
Qed.

Lemma lstrip_incl : forall s c, In c (lstrip s) -> In c s.
Proof.
  induction s as [|x t IH]; intros c Hc; [contradiction|].
  simpl in Hc. destruct (is_space x); [right; now apply IH|exact Hc].
Qed.

(** X10: the only line boundary in the text [dedent] returns is "\n":
    the other boundaries ("\r\n", "\r", form feed and so on) are replaced
    by it. *)
Theorem dedent_line_ends (text : str) (c : char) :
  In c (dedent text) -> is_linebreak c = true -> c = LF.
Proof.
  unfold dedent. intros Hc Hb.
  apply In_join in Hc as [[<-|[]]|(p & Hp & Hc)]; [reflexivity|].
  apply in_map_iff in Hp as (l & <- & Hl). apply lstrip_incl in Hc.
  assert (Hnil : forall x : char, In x [] -> is_linebreak x = false)
    by (intros x []).
  rewrite (splitlines_from_no_linebreak text [] l Hnil Hl c Hc) in Hb.
  discriminate.
Qed.

Lemma dedent_line_ends_witness :
  In LF (dedent (lit "  a" ++ [CR; LF] ++ lit "    b")) /\
  is_linebreak LF = true /\ LF = LF.
Proof.
  assert (H1 : In LF (dedent (lit "  a" ++ [CR; LF] ++ lit "    b")))
    by (vm_compute; right; now left).
  split; [exact H1|]. split; [reflexivity|].
  apply (dedent_line_ends (lit "  a" ++ [CR; LF] ++ lit "    b") LF H1).
  reflexivity.
Defined.

Section AnyEngine.
Context `{engine : RegexEngine}.

Lemma compile_all_some : forall patterns compiled,
  compile_all patterns = Some compiled ->
  forall line,
    keep_line compiled line = true <->
    (forall p, In p patterns -> re_search p line = Some false).
Proof.
  unfold keep_line.
  induction patterns as [|q ps IH]; intros compiled Ec line.
  - injection Ec as <-. simpl. split; [intros _ p []|reflexivity].
  - simpl in Ec. destruct (re_compile q) as [c|] eqn:Eq; [|discriminate].
    destruct (compile_all ps) as [cs|]; [|discriminate].
    injection Ec as <-. cbn [existsb]. rewrite negb_orb, andb_true_iff.
    rewrite (IH cs eq_refl line). split.
    + intros [Hc Hps] p [<-|Hp]; [|now apply Hps].
      unfold re_search. rewrite Eq. apply negb_true_iff in Hc. now rewrite Hc.
    + intros Hall. split; [|intros p Hp; apply Hall; now right].
      pose proof (Hall q (or_introl eq_refl)) as Hq.
      unfold re_search in Hq. rewrite Eq in Hq. injection Hq as ->. reflexivity.
Qed.

Lemma compile_all_none : forall patterns,
  compile_all patterns = None <-> exists p, In p patterns /\ re_compile p = None.
Proof.
  induction patterns as [|q ps IH]; simpl.
  - split; [discriminate|intros (p & [] & _)].
  - destruct (re_compile q) as [c|] eqn:Eq.
    + destruct (compile_all ps) as [cs|].
      * split; [discriminate|]. intros (p & [<-|Hp] & Hn).
        -- rewrite Eq in Hn. discriminate.
        -- assert (Hcs : Some cs = None) by (apply (proj2 IH); eauto).
           discriminate.
      * split; [|reflexivity]. intros _.
        destruct (proj1 IH eq_refl) as (p & Hp & Hn). eauto.
    + split; [|reflexivity]. intros _. exists q. split; [now left|exact Eq].
Qed.

(** X8: when [filter_lines] returns, the text is made of lines of the
    input, in their order and joined by "\n": exactly those lines in which
    none of the patterns is found. *)
Theorem filter_lines_keeps (text : str) (patterns : list str) (out : str) :
  filter_lines text patterns = Return out ->
  exists keep,
    out = join [LF] (filter keep (splitlines text)) /\
    forall line,
      keep line = true <->
      (forall p, In p patterns -> re_search p line = Some false).
Proof.
  unfold filter_lines.
  destruct (compile_all patterns) as [compiled|] eqn:Ec; [|discriminate].
  intros E. injection E as <-. exists (keep_line compiled).
  split; [reflexivity|]. now apply compile_all_some.
Qed.

(** X9: [filter_lines] raises [re.error] exactly when one of the
    patterns does not compile, whatever the text; no line is looked at
    before all patterns are compiled. *)
Theorem filter_lines_error (text : str) (patterns : list str) :
  filter_lines text patterns = Raise ReError <->
  exists p, In p patterns /\ re_compile p = None.
Proof.
  unfold filter_lines. rewrite <- compile_all_none.
  destruct (compile_all patterns); split; try discriminate; reflexivity.
Qed.

End AnyEngine.

Lemma filter_lines_keeps_witness :
  filter_lines (lit "show version" ++ [CR; LF] ++ lit "v1.0") [lit "show"]
  = Return (lit "v1.0") /\
  exists keep,
    lit "v1.0"
    = join [LF] (filter keep
                   (splitlines (lit "show version" ++ [CR; LF] ++ lit "v1.0"))) /\
    forall line,
      keep line = true <->
      (forall p, In p [lit "show"] -> re_search p line = Some false).
Proof.
  assert (H : filter_lines (lit "show version" ++ [CR; LF] ++ lit "v1.0")
                [lit "show"] = Return (lit "v1.0"))
    by (vm_compute; reflexivity).
  split; [exact H|].
  apply (filter_lines_keeps (engine := py_re) _ _ _ H).
Defined.

End lines_more.

(* ================================================================== *)
(** * Further properties of helpers/ssh_manager.py *)
(* ================================================================== *)

Module ssh_manager_more.
Import Py Env text_processor ssh_manager Notions MoreNotions.
Import Scenarios MoreScenarios EnvFacts.

(** ** [connect], [interactive_terminal] and [__enter__] *)

Section Connecting.
Variables (self : SSHCommandExecutor) (retries delay : Z).
Let key := truthy (key_filename self).

(** The loop of [connect] on what is left of [range(1, retries + 1)],
    whatever the delay: the log grows, the channel and the clock are not
    touched, and the transport is up after a return and as it was after a
    raise. *)
Lemma connect_loop_any : forall m a w,
  m = 0 \/ (Z.of_nat (a + m) = retries + 1)%Z ->
  let '(r, w') := connect_loop self retries delay (map Z.of_nat (seq a m)) w in
  (exists evs, log w' = log w ++ evs) /\
  polls w' = polls w /\ clock w' = clock w /\
  match r with
  | Return _ => m <> 0 -> transport_active w' = true
  | Raise _ => transport_active w' = transport_active w
  | Pending => False
  end.
Proof.
  induction m as [|m IH]; intros a w Hm.
  - simpl. repeat split; [exists []; now rewrite app_nil_r|congruence].
  - destruct Hm as [Hm|Hm]; [discriminate|].
    change (seq a (S m)) with (a :: seq (S a) m).
    cbn [map connect_loop]. unfold client_connect. fold key.
    set (w1 := emit (Connect key) (set_attempts (S (attempts w)) w)).
    assert (Hretry :
      let '(r, w') :=
        if (Z.of_nat a <? retries)%Z
        then match sleep_seconds delay w1 with
             | (Return _, w2) =>
                 connect_loop self retries delay (map Z.of_nat (seq (S a) m)) w2
             | (Raise e, w2) => (Raise e, w2)
             | (Pending, w2) => (Pending, w2)
             end
        else (Raise (ConnectionError (connects w (attempts w))), w1) in
      (exists evs, log w' = log w ++ evs) /\
      polls w' = polls w /\ clock w' = clock w /\
      match r with
      | Return _ => S m <> 0 -> transport_active w' = true
      | Raise _ => transport_active w' = transport_active w
      | Pending => False
      end).
    { destruct (Z.of_nat a <? retries)%Z eqn:Ea.
      2:{ repeat split. now exists [Connect key]. }
      apply Z.ltb_lt in Ea. assert (Hm' : m <> 0) by lia.
      unfold sleep_seconds.
      destruct ((delay <? - sleep_max) || (sleep_max <? delay))%Z.
      { repeat split. now exists [Connect key]. }
      destruct (delay <? 0)%Z.
      { repeat split. now exists [Connect key]. }
      specialize (IH (S a) (time_sleep (delay * 1000) w1)
                    ltac:(right; lia)).
      destruct (connect_loop self retries delay (map Z.of_nat (seq (S a) m))
                  (time_sleep (delay * 1000) w1)) as [r w'].
      destruct IH as ([evs Hl] & Hp & Hc & Hr).
      split; [|split; [exact Hp|split; [exact Hc|]]].
      - eexists. rewrite Hl. simpl. rewrite <- !app_assoc. reflexivity.
      - destruct r as [[]|e|]; [intros _; now apply Hr|exact Hr|exact Hr]. }
    destruct (connects w (attempts w)) as [|id|id|id] eqn:E.
    + repeat split. now exists [Connect key].
    + exact Hretry.
    + exact Hretry.
    + repeat split. now exists [Connect key].
Qed.

(** The same loop with a delay that [time.sleep] accepts: the attempts
    that failed, each followed by the delay, and the last attempt. *)
Lemma connect_loop_shape : sleep_ok delay -> forall m a w,
  m = 0 \/ (Z.of_nat (a + m) = retries + 1)%Z ->
  exists k,
    let '(r, w') := connect_loop self retries delay (map Z.of_nat (seq a m)) w in
    log w' = log w ++ attempt_events key delay k
                   ++ (if m =? 0 then [] else [Connect key]) /\
    k < m + (if m =? 0 then 1 else 0) /\
    match r with
    | Return _ => True
    | Raise e => exists cause, e = ConnectionError cause /\ cause <> Connected
    | Pending => False
    end.
Proof.
  intros Hd. induction m as [|m IH]; intros a w Hm.
  - exists 0. simpl. rewrite app_nil_r. repeat split. lia.
  - destruct Hm as [Hm|Hm]; [discriminate|].
    change (seq a (S m)) with (a :: seq (S a) m).
    cbn [map connect_loop]. unfold client_connect. fold key.
    set (w1 := emit (Connect key) (set_attempts (S (attempts w)) w)).
    assert (Hretry : forall cause, cause <> Connected ->
      exists k,
        let '(r, w') :=
          if (Z.of_nat a <? retries)%Z
          then match sleep_seconds delay w1 with
               | (Return _, w2) =>
                   connect_loop self retries delay
                     (map Z.of_nat (seq (S a) m)) w2
               | (Raise e, w2) => (Raise e, w2)
               | (Pending, w2) => (Pending, w2)
               end
          else (Raise (ConnectionError cause), w1) in
        log w' = log w ++ attempt_events key delay k ++ [Connect key] /\
        k < S m + 0 /\
        match r with
        | Return _ => True
        | Raise e => exists c, e = ConnectionError c /\ c <> Connected
        | Pending => False
        end).
    { intros cause Hcause. destruct (Z.of_nat a <? retries)%Z eqn:Ea.
      2:{ exists 0. repeat split; [lia|eauto]. }
      apply Z.ltb_lt in Ea. assert (Hm' : m <> 0) by lia.
      rewrite (sleep_seconds_ok delay w1 Hd).
      destruct (IH (S a) (time_sleep (delay * 1000) w1)) as [k Hk];
        [right; lia|].
      exists (S k).
      destruct (connect_loop self retries delay (map Z.of_nat (seq (S a) m))
                  (time_sleep (delay * 1000) w1)) as [r w'].
      destruct Hk as (Hl & Hlen & Hr).
      apply Nat.eqb_neq in Hm'. rewrite Hm' in Hl, Hlen.
      split; [|split; [simpl; lia|exact Hr]].
      rewrite Hl. simpl. unfold attempt_events. simpl.
      now rewrite <- !app_assoc. }
    destruct (connects w (attempts w)) as [|id|id|id] eqn:E.
    + exists 0. repeat split; lia.
    + apply Hretry. discriminate.
    + apply Hretry. discriminate.
    + exists 0. repeat split; [lia|]. eexists. split; [reflexivity|discriminate].
Qed.

Lemma range1_shape :
  Z.to_nat retries = 0 \/ (Z.of_nat (1 + Z.to_nat retries) = retries + 1)%Z.
Proof. lia. Qed.

End Connecting.







(** What [connect] logs comes after what was logged before. *)
Lemma connect_log (self : SSHCommandExecutor) (retries delay : Z) (w : world) :
  exists evs,
    let '(_, self', w') := connect self retries delay w in
    log w' = log w ++ evs /\ self' = set_client true self.
Proof.
  unfold connect, range1.
  pose proof (connect_loop_any (set_client true self) retries delay
                (Z.to_nat retries) 1 (set_transport_active false w)
                (range1_shape retries)) as Hf.
  destruct (connect_loop (set_client true self) retries delay
              (map Z.of_nat (seq 1 (Z.to_nat retries)))
              (set_transport_active false w)) as [r w'].
  destruct Hf as ([evs Hl] & _). exists evs. split; [exact Hl|reflexivity].
Qed.

Lemma connect_events (self : SSHCommandExecutor) (retries delay : Z) (w : world) :
  sleep_ok delay ->
  exists k,
    let '(_, _, w') := connect self retries delay w in
    log w' = log w ++ attempt_events (truthy (key_filename self)) delay k
                   ++ (if Z.to_nat retries =? 0 then []
                       else [Connect (truthy (key_filename self))]).
Proof.
  intros Hd. unfold connect, range1.
  destruct (connect_loop_shape (set_client true self) retries delay Hd
              (Z.to_nat retries) 1 (set_transport_active false w)
              (range1_shape retries)) as [k Hk].
  exists k.
  destruct (connect_loop (set_client true self) retries delay
              (map Z.of_nat (seq 1 (Z.to_nat retries)))
              (set_transport_active false w)) as [r w'].
  destruct Hk as (Hl & _). exact Hl.
Qed.

(** X13: with [retries] not positive [connect] makes no attempt and
    returns as if it had connected: nothing is logged, and the transport
    is down. *)
Theorem connect_without_attempts
    (self : SSHCommandExecutor) (retries delay : Z) (w : world) :
  (retries <= 0)%Z ->
  connect self retries delay w
  = (Return tt, set_client true self, set_transport_active false w).
Proof.
  intros Hr. unfold connect, range1.
  replace (Z.to_nat retries) with 0 by lia. reflexivity.
Qed.

Lemma connect_without_attempts_witness :
  (0 <= 0)%Z /\
  connect fresh 0 3 idle
  = (Return tt, set_client true fresh, set_transport_active false idle).
Proof.
  split; [lia|]. apply (connect_without_attempts fresh 0 3 idle). lia.
Defined.



(** X15: when [__enter__] returns, the session has a client and a
    channel, the transport is up, the channel is open, and asking for the
    shell was the last thing done. *)
Theorem enter_gives_a_shell (self self' : SSHCommandExecutor) (w w' : world) :
  __enter__ self w = (Return tt, self', w') ->
  client self' = true /\ channel self' = true /\
  transport_active w' = true /\ channel_closed w' = false /\
  exists evs, since w w' = evs ++ [InvokeShell].
Proof.
  unfold __enter__.
  destruct (connect_log self 3 3 w) as [evs1 Hk].
  destruct (connect self 3 3 w) as [[r self1] w1].
  destruct Hk as (Hl & ->).
  destruct r as [[]|e|]; [|discriminate|discriminate].
  unfold interactive_terminal. simpl client. simpl negb at 1. cbv iota.
  destruct (transport_active w1) eqn:Et; simpl negb; cbv iota; [|discriminate].
  destruct (shell_fails w1); [discriminate|].
  intros E. injection E as <- <-. repeat split; auto.
  exists evs1. apply since_app. simpl. rewrite Hl. now rewrite <- app_assoc.
Qed.

Lemma enter_gives_a_shell_witness :
  __enter__ fresh no_prompt
  = (Return tt, snd (fst (__enter__ fresh no_prompt)),
     snd (__enter__ fresh no_prompt)) /\
  client (snd (fst (__enter__ fresh no_prompt))) = true /\
  channel (snd (fst (__enter__ fresh no_prompt))) = true /\
  transport_active (snd (__enter__ fresh no_prompt)) = true /\
  channel_closed (snd (__enter__ fresh no_prompt)) = false /\
  exists evs, since no_prompt (snd (__enter__ fresh no_prompt))
              = evs ++ [InvokeShell].
Proof.
  assert (H : __enter__ fresh no_prompt
              = (Return tt, snd (fst (__enter__ fresh no_prompt)),
                 snd (__enter__ fresh no_prompt)))
    by (vm_compute; reflexivity).
  split; [exact H|].
  apply (enter_gives_a_shell fresh _ no_prompt _ H).
Defined.

(** ** Worlds that keep their settings *)

Lemma same_settings_refl w : same_settings w w.
Proof. unfold same_settings. repeat split. Qed.

Lemma same_settings_trans w1 w2 w3 :
  same_settings w1 w2 -> same_settings w2 w3 -> same_settings w1 w3.
Proof.
  unfold same_settings.
  intros (A1 & A2 & A3 & A4 & A5 & A6 & A7 & A8)
         (B1 & B2 & B3 & B4 & B5 & B6 & B7 & B8).
  repeat split; congruence.
Qed.

Lemma same_settings_emit_all evs : forall w, same_settings w (emit_all evs w).
Proof.
  induction evs as [|e evs IH]; intros w; [apply same_settings_refl|].
  simpl. eapply same_settings_trans; [|apply IH].
  unfold same_settings. repeat split.
Qed.

Section AnyEngine.
Context `{engine : RegexEngine}.

(** ** [wait_for_prompt] *)

(** The loop of [wait_for_prompt] receives, sleeps and selects, and
    nothing else. *)
Lemma wait_loop_frame : forall fuel prompt timeout start w,
  let '(_, w') := wait_loop fuel prompt timeout start w in
  exists evs,
    log w' = log w ++ evs /\
    forallb is_wait_event evs = true /\
    same_settings w w'.
Proof.
  induction fuel as [|f IH]; intros prompt timeout start w.
  - exists []. simpl. rewrite app_nil_r. repeat split.
  - cbn [wait_loop]. unfold time_time.
    destruct (clock w) as [|now rest] eqn:Ec.
    { exists []. rewrite app_nil_r. repeat split. }
    destruct (now - start <? timeout * 1000)%Z.
    2:{ exists []. simpl. rewrite app_nil_r. repeat split. }
    assert (Hgo : forall pre wn,
      log wn = log w ++ pre -> forallb is_wait_event pre = true ->
      same_settings w wn ->
      let '(_, w') := wait_loop f prompt timeout start wn in
      exists evs, log w' = log w ++ evs /\
                  forallb is_wait_event evs = true /\ same_settings w w').
    { intros pre wn Hl Hp Hs. specialize (IH prompt timeout start wn).
      destruct (wait_loop f prompt timeout start wn) as [o w'].
      destruct IH as (evs & Hl' & Hf & Hs'). exists (pre ++ evs).
      split; [rewrite Hl', Hl; now rewrite <- app_assoc|].
      split; [rewrite forallb_app, Hp, Hf; reflexivity|].
      eapply same_settings_trans; eauto. }
    unfold recv_ready, recv, select. simpl polls. simpl selects.
    destruct (polls w) as [|[c|] ps] eqn:Ep; cbv beta iota zeta;
      simpl polls; rewrite ?Ep; cbv beta iota zeta; simpl selects.
    + destruct (selects w) as [|[|] rs].
      * apply (Hgo [Select; Sleep 100]); [simpl; now rewrite <- app_assoc
                                         |reflexivity|repeat split].
      * apply (Hgo [Select]); [reflexivity|reflexivity|repeat split].
      * apply (Hgo [Select; Sleep 100]); [simpl; now rewrite <- app_assoc
                                         |reflexivity|repeat split].
    + destruct (re_search prompt c) as [[|]|].
      * exists [Recv c]. repeat split.
      * apply (Hgo [Recv c; Sleep 100]); [simpl; now rewrite <- app_assoc
                                         |reflexivity|repeat split].
      * exists [Recv c]. repeat split.
    + destruct (selects w) as [|[|] rs].
      * apply (Hgo [Select; Sleep 100]); [simpl; now rewrite <- app_assoc
                                         |reflexivity|repeat split].
      * apply (Hgo [Select]); [reflexivity|reflexivity|repeat split].
      * apply (Hgo [Select; Sleep 100]); [simpl; now rewrite <- app_assoc
                                         |reflexivity|repeat split].
Qed.

Lemma wait_for_prompt_frame
    (self : SSHCommandExecutor) (prompt : str) (timeout : Z) (w : world) :
  let '(_, w') := wait_for_prompt self prompt timeout w in
  exists evs,
    log w' = log w ++ evs /\
    forallb is_wait_event evs = true /\
    same_settings w w'.
Proof.
  unfold wait_for_prompt.
  destruct (negb (channel self)).
  { exists []. rewrite app_nil_r. repeat split. }
  destruct (negb (transport_active w)).
  { exists []. rewrite app_nil_r. repeat split. }
  unfold time_time. destruct (clock w) as [|t0 rest] eqn:Ec.
  { exists []. rewrite app_nil_r. repeat split. }
  pose proof (wait_loop_frame (length (clock (set_clock rest w)) + 1)
                prompt timeout t0 (set_clock rest w)) as Hf.
  destruct (wait_loop _ prompt timeout t0 (set_clock rest w)) as [o w'].
  destruct Hf as (evs & Hl & Hev & Hs). exists evs.
  split; [exact Hl|]. split; [exact Hev|].
  eapply same_settings_trans; [|exact Hs]. repeat split.
Qed.

(** X16: [wait_for_prompt] only listens: it receives, sleeps and selects,
    and it never sends, connects or closes anything; the state of the
    transport and of the channel is as before. *)
Theorem wait_for_prompt_only_listens
    (self : SSHCommandExecutor) (prompt : str) (timeout : Z) (w : world) :
  let '(_, w') := wait_for_prompt self prompt timeout w in
  forallb is_wait_event (since w w') = true /\
  sent (since w w') = [] /\
  same_settings w w'.
Proof.
  unfold wait_for_prompt.
  destruct (negb (channel self)).
  { rewrite since_refl. repeat split. }
  destruct (negb (transport_active w)).
  { rewrite since_refl. repeat split. }
  unfold time_time. destruct (clock w) as [|t0 rest] eqn:Ec.
  { rewrite since_refl. repeat split. }
  pose proof (wait_loop_frame (length (clock (set_clock rest w)) + 1)
                prompt timeout t0 (set_clock rest w)) as Hf.
  destruct (wait_loop _ prompt timeout t0 (set_clock rest w)) as [o w'].
  destruct Hf as (evs & Hl & Hev & Hs). simpl in Hl.
  rewrite (since_app _ _ _ Hl). split; [exact Hev|]. split.
  - clear Hl. induction evs as [|e evs IH]; [reflexivity|].
    simpl in Hev. apply andb_prop in Hev as [He Hev].
    destruct e; try discriminate; simpl; auto.
  - eapply same_settings_trans; [|exact Hs]. repeat split.
Qed.

(** X17: [wait_for_prompt] never returns [False]: when it returns, the
    chunk it has just received holds the prompt. *)
Theorem wait_for_prompt_returns_true
    (self : SSHCommandExecutor) (prompt : str) (timeout : Z) (w w' : world)
    (b : bool) :
  wait_for_prompt self prompt timeout w = (Return b, w') ->
  b = true /\
  exists evs c, since w w' = evs ++ [Recv c] /\ re_search prompt c = Some true.
Proof.
  unfold wait_for_prompt.
  destruct (negb (channel self)); [discriminate|].
  destruct (negb (transport_active w)); [discriminate|].
  destruct (time_time w) as [[t0 w1]|] eqn:T; [|discriminate].
  intros E. apply command_facts.wait_loop_returns in E
    as (-> & evs & c & Hl & Hm).
  split; [reflexivity|]. exists evs, c. split; [|exact Hm].
  apply since_app. now rewrite Hl, (command_facts.time_time_log _ _ _ T).
Qed.

(** X18: when the time is up at the first look at the clock,
    [wait_for_prompt] raises [TimeoutError] without reading the channel,
    whatever is waiting there. *)
Theorem wait_for_prompt_expired
    (self : SSHCommandExecutor) (prompt : str) (timeout : Z) (w : world)
    (t0 t1 : Z) (rest : list Z) :
  channel self = true ->
  transport_active w = true ->
  clock w = t0 :: t1 :: rest ->
  (timeout * 1000 <= t1 - t0)%Z ->
  wait_for_prompt self prompt timeout w = (Raise TimeoutError, set_clock rest w).
Proof.
  intros Hc Ht Hclk Hlate. unfold wait_for_prompt.
  rewrite Hc, Ht. simpl negb. cbv iota.
  unfold time_time at 1. rewrite Hclk. simpl clock.
  assert (E : (t1 - t0 <? timeout * 1000)%Z = false) by (apply Z.ltb_ge; lia).
  rewrite Nat.add_1_r. cbn [wait_loop]. unfold time_time at 1. simpl clock.
  cbv beta iota. rewrite E. reflexivity.
Qed.

End AnyEngine.

Lemma wait_for_prompt_returns_true_witness :
  wait_for_prompt device shell_prompt 30 prompt_ready
  = (Return true, snd (wait_for_prompt device shell_prompt 30 prompt_ready)) /\
  true = true /\
  exists evs c,
    since prompt_ready (snd (wait_for_prompt device shell_prompt 30 prompt_ready))
    = evs ++ [Recv c] /\
    re_search shell_prompt c = Some true.
Proof.
  assert (H : wait_for_prompt device shell_prompt 30 prompt_ready
              = (Return true,
                 snd (wait_for_prompt device shell_prompt 30 prompt_ready)))
    by (vm_compute; reflexivity).
  split; [exact H|].
  apply (wait_for_prompt_returns_true (engine := py_re) device shell_prompt 30
           prompt_ready _ true H).
Defined.

Lemma wait_for_prompt_expired_witness :
  channel device = true /\ transport_active late = true /\
  clock late = [0; 30000]%Z /\ (30 * 1000 <= 30000 - 0)%Z /\
  wait_for_prompt device shell_prompt 30 late
  = (Raise TimeoutError, set_clock [] late).
Proof.
  split; [reflexivity|]. split; [reflexivity|]. split; [reflexivity|].
  split; [lia|].
  apply (wait_for_prompt_expired (engine := py_re) device shell_prompt 30 late
           0%Z 30000%Z [] eq_refl eq_refl eq_refl).
  lia.
Defined.

End ssh_manager_more.

(* ================================================================== *)
(** * Further properties of [execute_command] *)
(* ================================================================== *)

Module command_more.
Import Py Env text_processor ssh_manager Notions MoreNotions.
Import Scenarios MoreScenarios EnvFacts command_facts ssh_manager_more.

Lemma chunk_events_are_command_events cs :
  forallb is_command_event (concat (map chunk_events cs)) = true.
Proof.
  induction cs as [|c cs IH]; [reflexivity|].
  simpl. rewrite forallb_app, IH, andb_true_r. unfold pager_keys.
  destruct (contains more_marker c);
    destruct (contains end_marker _); reflexivity.
Qed.

Lemma chunk_events_append_nothing cs :
  filter is_append (concat (map chunk_events cs)) = [].
Proof.
  induction cs as [|c cs IH]; [reflexivity|].
  simpl. rewrite filter_app, IH, app_nil_r. unfold pager_keys.
  destruct (contains more_marker c);
    destruct (contains end_marker _); reflexivity.
Qed.

Lemma quit_keys_pager_keys c :
  filter is_quit_key (sent (pager_keys c)) =
  if contains end_marker
       (if contains more_marker c then replace more_marker [] c else c)
  then [lit "q"] else [].
Proof.
  unfold pager_keys.
  destruct (contains more_marker c);
    destruct (contains end_marker _); reflexivity.
Qed.

Lemma quit_keys_chunk_events cs :
  quit_keys (concat (map chunk_events cs)) =
  length (filter (fun chunk =>
            contains end_marker
              (if contains more_marker chunk
               then replace more_marker [] chunk else chunk)) cs).
Proof.
  unfold quit_keys. induction cs as [|c cs IH]; [reflexivity|].
  simpl. rewrite sent_app, filter_app, length_app, quit_keys_pager_keys, IH.
  destruct (contains end_marker _); reflexivity.
Qed.

Lemma command_events_do_not_sleep : forall l,
  forallb is_command_event l = true -> slept l = [].
Proof.
  induction l as [|e l IH]; [reflexivity|].
  simpl. intros Hall. apply andb_prop in Hall as [He Hall].
  destruct e; try discriminate; simpl; auto.
Qed.

Lemma command_line_is_no_quit_key cmd : is_quit_key (cmd ++ [LF]) = false.
Proof. destruct cmd as [|a [|b t]]; reflexivity. Qed.

Section AnyEngine.
Context `{engine : RegexEngine}.

(** The loop of [execute_command] changes nothing but the scripts and the
    log. *)
Lemma execute_loop_settings : forall fuel prompt timeout start result w,
  let '(_, _, w') := execute_loop fuel prompt timeout start result w in
  same_settings w w'.
Proof.
  induction fuel as [|f IH]; intros prompt timeout start result w.
  - apply same_settings_refl.
  - cbn [execute_loop]. rewrite receive_chunk_eq.
    assert (Hgo : forall r1 w1,
      same_settings w w1 ->
      let '(_, _, w') :=
        match re_search prompt r1 with
        | Some true => (Return tt, r1, w1)
        | Some false =>
            match time_time w1 with
            | Some (now, w3) =>
                if (now - start >? timeout * 1000)%Z
                then (Raise TimeoutError, r1, w3)
                else execute_loop f prompt timeout start r1 w3
            | None => (Pending, r1, w1)
            end
        | None => (Raise ReError, r1, w1)
        end in
      same_settings w w').
    { intros r1 w1 Hs. destruct (re_search prompt r1) as [[|]|]; auto.
      unfold time_time. destruct (clock w1) as [|now rest]; auto.
      assert (Hs3 : same_settings w (set_clock rest w1)).
      { eapply same_settings_trans; [exact Hs|]. repeat split. }
      destruct (now - start >? timeout * 1000)%Z; auto.
      specialize (IH prompt timeout start r1 (set_clock rest w1)).
      destruct (execute_loop f prompt timeout start r1 (set_clock rest w1))
        as [[o r'] w'].
      eapply same_settings_trans; eauto. }
    destruct (polls w) as [|[c|] ps].
    + apply Hgo. apply same_settings_refl.
    + apply Hgo. eapply same_settings_trans; [|apply same_settings_emit_all].
      repeat split.
    + apply Hgo. repeat split.
Qed.

(** X19: [execute_command] sends, receives and, at the end, writes to the
    sink, and nothing else: it never sleeps between two polls of the
    channel, never selects, and never closes or reconnects anything. *)
Theorem execute_command_only_talks
    (self : SSHCommandExecutor) (cmd prompt : str) (to_file : bool)
    (timeout : Z) (w : world) :
  let '(_, w') := execute_command self cmd prompt to_file timeout w in
  forallb is_command_event (since w w') = true /\
  slept (since w w') = [].
Proof.
  destruct (execute_command_events self cmd prompt to_file timeout w)
    as (pre & chunks & tail & Hev).
  destruct (execute_command self cmd prompt to_file timeout w) as [o w'].
  destruct Hev as (Hl & Hpre & Htail & _).
  rewrite (since_app _ _ _ Hl).
  assert (Hall : forallb is_command_event
                   (pre ++ concat (map chunk_events chunks) ++ tail) = true).
  { rewrite !forallb_app, chunk_events_are_command_events.
    destruct Hpre as [->| ->]; destruct Htail as [->|(fn & c & ->)];
      reflexivity. }
  split; [exact Hall|]. now apply command_events_do_not_sleep.
Qed.

(** X20: a prompt that does not compile as a pattern is found out only
    after the command has been sent: [execute_command] raises [re.error]
    in the first round of its loop, having received at most one chunk. *)
Theorem execute_command_bad_prompt
    (self : SSHCommandExecutor) (cmd prompt : str) (to_file : bool)
    (timeout : Z) (w : world) (t0 : Z) (rest : list Z) :
  channel self = true ->
  clock w = t0 :: rest ->
  re_compile prompt = None ->
  let '(o, w') := execute_command self cmd prompt to_file timeout w in
  o = Raise ReError /\
  (exists evs, since w w' = Send (cmd ++ [LF]) :: evs) /\
  length (received (since w w')) <= 1 /\
  clock w' = rest.
Proof.
  intros Hc Hclk Hp. unfold execute_command. rewrite Hc. simpl negb. cbv iota.
  unfold time_time at 1. simpl clock. rewrite Hclk.
  rewrite Nat.add_1_r. cbn [execute_loop]. rewrite receive_chunk_eq.
  simpl polls.
  assert (Hs : forall r, re_search prompt r = None).
  { intros r. unfold re_search. now rewrite Hp. }
  destruct (polls w) as [|[c|] ps]; rewrite Hs.
  - split; [reflexivity|]. rewrite (since_app w _ [Send (cmd ++ [LF])])
      by reflexivity.
    repeat split; [now exists []|simpl; lia].
  - split; [reflexivity|].
    rewrite (since_app w _ (Send (cmd ++ [LF]) :: Recv c :: pager_keys c)).
    2:{ rewrite emit_all_log. simpl. now rewrite <- !app_assoc. }
    split; [eauto|]. split.
    + simpl. change (received (pager_keys c)) with (received (pager_keys c)).
      rewrite received_pager_keys. simpl. lia.
    + now rewrite emit_all_clock.
  - split; [reflexivity|]. rewrite (since_app w _ [Send (cmd ++ [LF])])
      by reflexivity.
    repeat split; [now exists []|simpl; lia].
Qed.

(** X21: a command that does not compile as a pattern never gives its
    output: [execute_command] does not return, whatever the device
    answers. *)
Theorem execute_command_bad_command
    (self : SSHCommandExecutor) (cmd prompt : str) (to_file : bool)
    (timeout : Z) (w : world) :
  re_compile cmd = None ->
  forall out, fst (execute_command self cmd prompt to_file timeout w) <> Return out.
Proof.
  intros Hcmd out Hret.
  destruct (execute_command_events self cmd prompt to_file timeout w)
    as (pre & chunks & tail & Hev).
  destruct (execute_command self cmd prompt to_file timeout w) as [o w'].
  destruct Hev as (_ & _ & _ & _ & _ & Hout). simpl in Hret. subst o.
  destruct Hout as (filtered & Hf & _).
  unfold filter_lines, compile_all in Hf. rewrite Hcmd in Hf. discriminate.
Qed.

(** X22: the number of quit keystrokes sent is that of the received
    chunks in which ["(END)"] is found once ["--More--"] has been taken
    out of them. *)
Theorem execute_command_quit_keys
    (self : SSHCommandExecutor) (cmd prompt : str) (to_file : bool)
    (timeout : Z) (w : world) :
  let '(_, w') := execute_command self cmd prompt to_file timeout w in
  quit_keys (since w w') = ended_chunks (since w w').
Proof.
  destruct (execute_command_events self cmd prompt to_file timeout w)
    as (pre & chunks & tail & Hev).
  destruct (execute_command self cmd prompt to_file timeout w) as [o w'].
  destruct Hev as (Hl & Hpre & Htail & _).
  rewrite (since_app _ _ _ Hl). unfold ended_chunks.
  assert (Hrecv : received (pre ++ concat (map chunk_events chunks) ++ tail)
                  = chunks).
  { rewrite !received_app, received_chunk_events.
    destruct Hpre as [->| ->]; destruct Htail as [->|(fn & c & ->)];
      simpl; now rewrite ?app_nil_r. }
  rewrite Hrecv, <- quit_keys_chunk_events. unfold quit_keys.
  rewrite !sent_app, !filter_app, !length_app.
  destruct Hpre as [->| ->]; destruct Htail as [->|(fn & c & ->)];
    simpl; rewrite ?command_line_is_no_quit_key; simpl; lia.
Qed.

End AnyEngine.

Lemma execute_command_bad_prompt_witness :
  let '(o, w') :=
    execute_command device (lit "show version") (lit "(") false 30 data_waiting in
  o = Raise ReError /\
  (exists evs, since data_waiting w' = Send (lit "show version" ++ [LF]) :: evs) /\
  length (received (since data_waiting w')) <= 1 /\
  clock w' = [10; 20; 31000]%Z.
Proof.
  apply (execute_command_bad_prompt (engine := py_re) device (lit "show version")
           (lit "(") false 30 data_waiting 0%Z [10; 20; 31000]%Z
           eq_refl eq_refl).
  vm_compute. reflexivity.
Defined.

Lemma execute_command_bad_command_witness :
  re_compile (lit "show (") = None /\
  forall out,
    fst (execute_command device (lit "show (") shell_prompt false 30 echo_home)
    <> Return out.
Proof.
  assert (H : re_compile (lit "show (") = None) by (vm_compute; reflexivity).
  split; [exact H|].
  apply (execute_command_bad_command (engine := py_re) device (lit "show (")
           shell_prompt false 30 echo_home H).
Defined.

End command_more.

(* ================================================================== *)
(** * The sink, the teardown, the script runner and [main] *)
(* ================================================================== *)

Module runner_more.
Import Py Env text_processor ssh_manager Notions MoreNotions.
Import Scenarios MoreScenarios EnvFacts command_facts ssh_manager_more command_more.

Section AnyEngine.
Context `{engine : RegexEngine}.

(** What [execute_command] has logged when its loop is left, and the
    settings of the world then. *)
Lemma execute_loop_of_command cmd prompt timeout w t0 rest :
  clock w = t0 :: rest ->
  let w2 := set_clock rest (send (cmd ++ [LF]) w) in
  let '(_, _, w3) := execute_loop (length (clock w2) + 1) prompt timeout t0 [] w2 in
  (exists chunks,
     log w3 = log w ++ Send (cmd ++ [LF]) :: concat (map chunk_events chunks)) /\
  same_settings w w3.
Proof.
  intros Hclk w2.
  destruct (execute_loop_trace (length (clock w2) + 1) prompt timeout t0 [] w2)
    as (chunks & Htr & _).
  pose proof (execute_loop_settings (length (clock w2) + 1) prompt timeout
                t0 [] w2) as Hs.
  destruct (execute_loop _ prompt timeout t0 [] w2) as [[o r] w3].
  destruct Htr as [Hl _]. split.
  - exists chunks. rewrite Hl. simpl. now rewrite <- app_assoc.
  - eapply same_settings_trans; [|exact Hs]. repeat split.
Qed.

(** X23: with [to_file] off, [execute_command] writes nothing to the
    sink. *)
Theorem execute_command_without_sink
    (self : SSHCommandExecutor) (cmd prompt : str) (timeout : Z) (w : world) :
  let '(_, w') := execute_command self cmd prompt false timeout w in
  filter is_append (since w w') = [].
Proof.
  unfold execute_command. destruct (negb (channel self)).
  { now rewrite since_refl. }
  unfold time_time at 1. simpl clock. destruct (clock w) as [|t0 rest] eqn:Ec.
  { now rewrite (since_app w _ [Send (cmd ++ [LF])]) by reflexivity. }
  pose proof (execute_loop_of_command cmd prompt timeout w t0 rest Ec) as Hl.
  cbv zeta in Hl.
  destruct (execute_loop _ prompt timeout t0 []
              (set_clock rest (send (cmd ++ [LF]) w))) as [[o r] w3].
  destruct Hl as [(chunks & Hl) _].
  assert (Hq : filter is_append (since w w3) = []).
  { rewrite (since_app _ _ _ Hl). simpl. apply chunk_events_append_nothing. }
  destruct o as [[]|e|]; try exact Hq.
  destruct (filter_lines r [cmd; prompt]); exact Hq.
Qed.

(** X24: when [execute_command] returns with [to_file] on, the last thing
    it did was to append the text it returns, followed by "\n", to the
    file [output_<host>_<hostname>.txt] in the directory [output] under
    the data directory; it wrote nothing else, and the data directory was
    configured. *)
Theorem execute_command_appends_output
    (self : SSHCommandExecutor) (cmd prompt : str) (timeout : Z)
    (w w' : world) (out : str) :
  execute_command self cmd prompt true timeout w = (Return out, w') ->
  truthy (data_dir w) = true /\
  exists evs,
    since w w' = evs ++ [Append (sink_file self w) (out ++ [LF])] /\
    filter is_append evs = [].
Proof.
  unfold execute_command. destruct (negb (channel self)); [discriminate|].
  unfold time_time at 1. simpl clock.
  destruct (clock w) as [|t0 rest] eqn:Ec; [discriminate|].
  pose proof (execute_loop_of_command cmd prompt timeout w t0 rest Ec) as Hl.
  cbv zeta in Hl.
  destruct (execute_loop _ prompt timeout t0 []
              (set_clock rest (send (cmd ++ [LF]) w))) as [[o r] w3].
  destruct Hl as [(chunks & Hl) Hs].
  destruct o as [[]|e|]; try discriminate.
  destruct (filter_lines r [cmd; prompt]) as [filtered|e|]; try discriminate.
  unfold log_output_to_file.
  destruct Hs as (_ & _ & _ & _ & _ & Hd & _ & _).
  destruct (truthy (data_dir w3)) eqn:Et; simpl negb; cbv iota; [|discriminate].
  destruct (write_fails w3); [discriminate|].
  intros E. injection E as <- <-. rewrite <- Hd. split; [exact Et|].
  exists (Send (cmd ++ [LF]) :: concat (map chunk_events chunks)). split.
  - apply since_app. simpl. rewrite Hl. unfold sink_file. rewrite Hd.
    now rewrite <- app_assoc.
  - simpl. apply chunk_events_append_nothing.
Qed.

(** ** [confirm_close] *)

(** X25: [confirm_close] is idempotent: a second call changes nothing and
    closes nothing. *)
Theorem confirm_close_idempotent (self : SSHCommandExecutor) (w : world) :
  confirm_close self (confirm_close self w) = confirm_close self w.
Proof.
  unfold confirm_close.
  destruct (channel self), (client self), (channel_closed w) eqn:Ec,
    (transport_active w) eqn:Et;
    repeat (simpl; rewrite ?Ec, ?Et); reflexivity.
Qed.

(** X26: [confirm_close] closes the channel exactly when the session has
    one and it is not closed yet, then the client exactly when the session
    has one and its transport is still up, and waits half a second after
    each close; afterwards the channel is closed if it was or if the
    session has one, and the transport is up only if it was and the
    session has no client.  A session that never connected is left as it
    is. *)
Theorem confirm_close_order (self : SSHCommandExecutor) (w : world) :
  let w' := confirm_close self w in
  since w w' =
    (if channel self && negb (channel_closed w)
     then [ChannelClose; Sleep 500] else [])
    ++ (if client self && transport_active w
        then [ClientClose; Sleep 500] else []) /\
  channel_closed w' = channel_closed w || channel self /\
  transport_active w' = transport_active w && negb (client self) /\
  (channel self = false -> client self = false -> w' = w).
Proof.
  cbv zeta. split; [|split; [|split]].
  - unfold confirm_close.
    destruct (channel self), (client self), (channel_closed w) eqn:Ec,
      (transport_active w) eqn:Et; simpl; rewrite ?Ec, ?Et; simpl;
      rewrite ?since_refl; try reflexivity;
      apply since_app; simpl; now rewrite <- ?app_assoc.
  - unfold confirm_close.
    destruct (channel self), (client self), (channel_closed w) eqn:Ec,
      (transport_active w) eqn:Et; simpl; rewrite ?Ec, ?Et; simpl;
      rewrite ?Ec; reflexivity.
  - unfold confirm_close.
    destruct (channel self), (client self), (channel_closed w) eqn:Ec,
      (transport_active w) eqn:Et; simpl; rewrite ?Ec, ?Et; simpl;
      rewrite ?Et; reflexivity.
  - intros Hc Hl. unfold confirm_close. now rewrite Hc, Hl.
Qed.

(** ** The script runner *)

(** X27: blank lines of the commands file do not count: running the
    commands is running the lines that are not blank. *)
Theorem run_commands_skips_blank_lines
    (self : SSHCommandExecutor) (commands : list str) (prompt : str)
    (to_file : bool) (timeout : Z) (w : world) :
  run_commands self commands prompt to_file timeout w
  = run_commands self (filter is_command_line commands) prompt to_file timeout w.
Proof.
  revert w. induction commands as [|line rest IH]; intros w; [reflexivity|].
  cbn [run_commands filter]. unfold is_command_line at 1.
  destruct (negb (is_nil (strip line))) eqn:El; [|apply IH].
  cbn [run_commands]. rewrite El.
  destruct (execute_command self (strip line) prompt to_file timeout w)
    as [[out|e|] w1]; [apply IH|reflexivity|reflexivity].
Qed.

(** ** [main] *)

Lemma init_with_credential device :
  has_credential device = true ->
  exists executor,
    __init__ (config_loader.ip_address device) (config_loader.port device)
             (config_loader.username device) (config_loader.password device)
             (config_loader.key_filename device) []
             (Some (config_loader.hostname device))
             (Some (config_loader.commands_file device)) = Return executor.
Proof.
  unfold has_credential, __init__. intros Hc. apply orb_true_iff in Hc.
  destruct (truthy (config_loader.password device)),
    (truthy (config_loader.key_filename device)); simpl; eauto.
  destruct Hc; discriminate.
Qed.

(** For a device with a credential nothing gets out of the [try]. *)
Lemma process_device_catches device w :
  has_credential device = true ->
  forall e, fst (main_py.process_device device w) <> Raise e.
Proof.
  intros Hc e. unfold main_py.process_device.
  destruct (init_with_credential device Hc) as [executor ->].
  destruct (connect executor 3 3 w) as [[[[]|e1|] executor1] w1];
    try discriminate.
  destruct (interactive_terminal executor1 w1) as [[[[]|e2|] executor2] w2];
    try discriminate.
  destruct (wait_for_prompt executor2 main_py.prompt 30 w2) as [[b|e3|] w3];
    try discriminate.
  destruct (execute_commands_from_file executor2 main_py.prompt true 30 w3)
    as [[[]|e4|] w4]; discriminate.
Qed.

(** X28: when every device has a password or a key file, [main] raises
    nothing, whatever the devices and the transport do. *)
Theorem main_catches_device_failures
    (devices : list config_loader.SSHDevice) (w : world) :
  (forall d, In d devices -> has_credential d = true) ->
  forall e, fst (main_py.main devices w) <> Raise e.
Proof.
  revert w. induction devices as [|d rest IH]; intros w Hall e;
    [discriminate|].
  cbn [main_py.main].
  pose proof (process_device_catches d w (Hall d (or_introl eq_refl))) as Hd.
  destruct (main_py.process_device d w) as [[[]|e1|] w1].
  - apply IH. intros d' Hd'. apply Hall. now right.
  - now contradiction (Hd e1).
  - discriminate.
Qed.

Lemma main_app pre rest : forall w,
  main_py.main (pre ++ rest) w =
  match main_py.main pre w with
  | (Return _, w1) => main_py.main rest w1
  | other => other
  end.
Proof.
  induction pre as [|d pre IH]; intros w; [reflexivity|].
  cbn [app main_py.main].
  destruct (main_py.process_device d w) as [[[]|e|] w1];
    [apply IH|reflexivity|reflexivity].
Qed.

(** X29: the executor is built outside the [try]: a device with neither
    password nor key file makes [main] raise [ValueError] before anything
    is done for it, and the devices after it are not processed. *)
Theorem main_stops_at_device_without_credential
    (pre post : list config_loader.SSHDevice) (d : config_loader.SSHDevice)
    (w w1 : world) :
  main_py.main pre w = (Return tt, w1) ->
  has_credential d = false ->
  main_py.main (pre ++ d :: post) w = (Raise ValueError, w1).
Proof.
  intros Hpre Hd. rewrite main_app, Hpre. cbn [main_py.main].
  unfold main_py.process_device, __init__.
  unfold has_credential in Hd. apply orb_false_iff in Hd as [Hp Hk].
  now rewrite Hp, Hk.
Qed.

(** X30: [main] closes a session only through
    [execute_commands_from_file]: when the prompt does not come, the
    failure is logged and the session is left with its transport up and
    its channel open. *)
Theorem main_leaves_session_open
    (device : config_loader.SSHDevice) (w w1 w2 w3 : world)
    (executor executor1 executor2 : SSHCommandExecutor) (e : exn) :
  __init__ (config_loader.ip_address device) (config_loader.port device)
           (config_loader.username device) (config_loader.password device)
           (config_loader.key_filename device) []
           (Some (config_loader.hostname device))
           (Some (config_loader.commands_file device)) = Return executor ->
  connect executor 3 3 w = (Return tt, executor1, w1) ->
  interactive_terminal executor1 w1 = (Return tt, executor2, w2) ->
  wait_for_prompt executor2 main_py.prompt 30 w2 = (Raise e, w3) ->
  main_py.process_device device w = (Return tt, w3) /\
  transport_active w3 = true /\ channel_closed w3 = false /\
  filter is_close (since w w3) = [].
Proof.
  intros Hi Hc Ht Hw. unfold main_py.process_device. rewrite Hi, Hc, Ht, Hw.
  split; [reflexivity|].
  pose proof (wait_for_prompt_frame executor2 main_py.prompt 30 w2) as Hf.
  rewrite Hw in Hf. destruct Hf as (evs3 & Hl3 & He3 & Hs3).
  destruct Hs3 as (_ & _ & _ & Hta & Hcc & _).
  unfold interactive_terminal in Ht.
  destruct (client executor1); simpl negb in Ht; cbv iota in Ht;
    [|discriminate].
  destruct (transport_active w1) eqn:Et1; simpl negb in Ht; cbv iota in Ht;
    [|discriminate].
  destruct (shell_fails w1); [discriminate|].
  injection Ht as <- <-. simpl in Hta, Hcc, Hl3.
  split; [congruence|]. split; [exact Hcc|].
  destruct (connect_events executor 3 3 w
              ltac:(unfold sleep_ok, sleep_max; lia)) as (k & Hk).
  rewrite Hc in Hk. simpl in Hk.
  rewrite (since_app w w3 (attempt_events (truthy (key_filename executor)) 3 k
             ++ [Connect (truthy (key_filename executor))] ++ [InvokeShell]
             ++ evs3)).
  2:{ rewrite Hl3, Hk. now rewrite <- !app_assoc. }
  rewrite !filter_app. simpl.
  assert (H1 : forall n, filter is_close
                 (attempt_events (truthy (key_filename executor)) 3 n) = []).
  { induction n as [|n IH]; [reflexivity|]. unfold attempt_events in *.
    simpl. exact IH. }
  rewrite H1. simpl. clear Hl3.
  induction evs3 as [|x evs IH]; [reflexivity|].
  simpl in He3. apply andb_prop in He3 as [Hx He3].
  destruct x; try discriminate; simpl; auto.
Qed.

End AnyEngine.

Lemma confirm_close_order_witness :
  since idle (confirm_close device idle)
  = [ChannelClose; Sleep 500; ClientClose; Sleep 500] /\
  confirm_close fresh idle = idle.
Proof.
  split.
  - exact (proj1 (confirm_close_order device idle)).
  - apply (proj2 (proj2 (proj2 (confirm_close_order fresh idle))));
      reflexivity.
Defined.

Lemma execute_command_appends_output_witness :
  execute_command device (lit "uptime") shell_prompt true 30 with_sink
  = (Return (lit "up 3 days"),
     snd (execute_command device (lit "uptime") shell_prompt true 30 with_sink)) /\
  truthy (data_dir with_sink) = true /\
  exists evs,
    since with_sink
      (snd (execute_command device (lit "uptime") shell_prompt true 30 with_sink))
    = evs ++ [Append (sink_file device with_sink) (lit "up 3 days" ++ [LF])] /\
    filter is_append evs = [].
Proof.
  assert (H : execute_command device (lit "uptime") shell_prompt true 30 with_sink
              = (Return (lit "up 3 days"),
                 snd (execute_command device (lit "uptime") shell_prompt true 30
                        with_sink)))
    by (vm_compute; reflexivity).
  split; [exact H|].
  apply (execute_command_appends_output (engine := py_re) device (lit "uptime")
           shell_prompt 30 with_sink _ (lit "up 3 days") H).
Defined.

Lemma main_catches_device_failures_witness :
  (forall d, In d [switch1; switch2] -> has_credential d = true) /\
  forall e, fst (main_py.main [switch1; switch2] unreachable) <> Raise e.
Proof.
  assert (H : forall d, In d [switch1; switch2] -> has_credential d = true).
  { intros d [<-|[<-|[]]]; reflexivity. }
  split; [exact H|].
  apply (main_catches_device_failures (engine := py_re) [switch1; switch2]
           unreachable H).
Defined.

Lemma main_stops_at_device_without_credential_witness :
  main_py.main [switch1] unreachable
  = (Return tt, snd (main_py.main [switch1] unreachable)) /\
  has_credential bare = false /\
  main_py.main ([switch1] ++ bare :: [switch2]) unreachable
  = (Raise ValueError, snd (main_py.main [switch1] unreachable)).
Proof.
  assert (H : main_py.main [switch1] unreachable
              = (Return tt, snd (main_py.main [switch1] unreachable)))
    by (vm_compute; reflexivity).
  split; [exact H|]. split; [reflexivity|].
  apply (main_stops_at_device_without_credential (engine := py_re)
           [switch1] [switch2] bare unreachable _ H).
  reflexivity.
Defined.

Lemma main_leaves_session_open_witness :
  main_py.process_device switch1 no_prompt
  = (Return tt, snd (main_py.process_device switch1 no_prompt)) /\
  transport_active (snd (main_py.process_device switch1 no_prompt)) = true /\
  channel_closed (snd (main_py.process_device switch1 no_prompt)) = false /\
  filter is_close
    (since no_prompt (snd (main_py.process_device switch1 no_prompt))) = [].
Proof.
  pose (executor := mkExecutor (lit "10.0.0.1") 22 (lit "admin")
                      (Some (lit "secret")) None default_ciphers
                      (Some (lit "sw1")) (Some (lit "commands.txt"))
                      false false).
  pose (c := connect executor 3 3 no_prompt).
  pose (t := interactive_terminal (snd (fst c)) (snd c)).
  pose (p := wait_for_prompt (snd (fst t)) main_py.prompt 30 (snd t)).
  assert (Hw3 : snd (main_py.process_device switch1 no_prompt) = snd p)
    by (vm_compute; reflexivity).
  rewrite Hw3.
  apply (main_leaves_session_open (engine := py_re) switch1 no_prompt
           (snd c) (snd t) (snd p) executor (snd (fst c)) (snd (fst t))
           TimeoutError);
    vm_compute; reflexivity.
Defined.

End runner_more.
